(** * github-finds (ghf): cache, failure classifier and pagination loops

    A shallow embedding of [src/utils/cache.ts], [src/api/client.ts] and of the
    paginated list commands ([repo list] in [src/commands/repo.ts],
    [search repos] in the search command file), followed by the properties
    the specification states about them. *)

From Stdlib Require Import ZArith Ascii String DecimalString DecimalZ Lia.
From stdpp Require Import base strings gmap list.

Local Open Scope Z_scope.

(* ===================================================================== *)
(** * JavaScript values as the code uses them *)
(* ===================================================================== *)

Module Js.

(** The numbers the commands compute with are results of [parseInt],
    [Math.min], [++], [*] and [Array.length]: integers or [NaN].
    Integers are unbounded here; the code's doubles agree with them inside
    the safe-integer range. *)
Inductive number :=
| NaN
| Int (z : Z).

(** [Number.MAX_SAFE_INTEGER]: up to it (and down to its negative) every
    integer is a double and [+], [-], [*] and [++] are exact when their
    result lies in the range. *)
Definition MAX_SAFE_INTEGER : Z := 2 ^ 53 - 1.

(** [a === b] on numbers: [NaN] equals nothing. *)
Definition strict_eq (a b : number) : bool :=
  match a, b with
  | Int x, Int y => x =? y
  | _, _ => false
  end.

(** [a < b]. *)
Definition lt (a b : number) : bool :=
  match a, b with
  | Int x, Int y => x <? y
  | _, _ => false
  end.

(** [a * b]. *)
Definition mul (a b : number) : number :=
  match a, b with
  | Int x, Int y => Int (x * y)
  | _, _ => NaN
  end.

(** [page++]. *)
Definition incr (a : number) : number :=
  match a with
  | Int x => Int (x + 1)
  | NaN => NaN
  end.

(** [n] and the [k] numbers that [++] reaches from it are safe integers, so
    that [++] moves in the code as it does here; [NaN] stays [NaN]. *)
Definition safe_for (k : nat) (n : number) : bool :=
  match n with
  | NaN => true
  | Int z => (- MAX_SAFE_INTEGER <=? z) && (z + Z.of_nat k <=? MAX_SAFE_INTEGER)
  end.

(** [Math.min(a, b)]: [NaN] if either argument is. *)
Definition min (a b : number) : number :=
  match a, b with
  | Int x, Int y => Int (Z.min x y)
  | _, _ => NaN
  end.

(** [arr.length]. *)
Definition length {A} (l : list A) : number := Int (Z.of_nat (List.length l)).

(** The primitive values [string | number | boolean | undefined | null]. *)
Inductive prim :=
| Undefined
| Null
| Bool (b : bool)
| Num (n : number)
| Str (s : string).

(** [String(n)] for a number: decimal digits, a leading minus sign for
    negative integers, ["NaN"]. *)
Definition number_to_string (n : number) : string :=
  match n with
  | NaN => "NaN"
  | Int z => NilZero.string_of_int (Z.to_int z)
  end.

(** [String(v)] on primitives. *)
Definition String (v : prim) : string :=
  match v with
  | Undefined => "undefined"
  | Null => "null"
  | Bool true => "true"
  | Bool false => "false"
  | Num n => number_to_string n
  | Str s => s
  end.

(** [s ? .. : ..] on a string: the empty string is falsy. *)
Definition truthy (s : string) : bool :=
  match s with
  | EmptyString => false
  | _ => true
  end.

(** [arr.join(sep)] on an array of strings. *)
Fixpoint join (sep : string) (l : list string) : string :=
  match l with
  | [] => EmptyString
  | x :: rest =>
      match rest with
      | [] => x
      | _ :: _ => x +:+ sep +:+ join sep rest
      end
  end.

(** [s.startsWith(prefix)]. *)
Fixpoint startsWith (s prefix : string) {struct prefix} : bool :=
  match prefix with
  | EmptyString => true
  | String.String c prefix' =>
      match s with
      | EmptyString => false
      | String.String d s' => Ascii.eqb c d && startsWith s' prefix'
      end
  end.

(** [hay.includes(needle)]: the needle starts somewhere in the hay. *)
Fixpoint includes (hay needle : string) : bool :=
  startsWith hay needle ||
  match hay with
  | EmptyString => false
  | String.String _ rest => includes rest needle
  end.

(** [s.toLowerCase()], on the ASCII letters; other bytes are kept. *)
Definition lower_ascii (c : ascii) : ascii :=
  let n := nat_of_ascii c in
  if ((65 <=? n) && (n <=? 90))%nat then ascii_of_nat (n + 32) else c.

Fixpoint toLowerCase (s : string) : string :=
  match s with
  | EmptyString => EmptyString
  | String.String c rest => String.String (lower_ascii c) (toLowerCase rest)
  end.

End Js.

(* ===================================================================== *)
(** * [src/utils/cache.ts]: the key builder *)
(* ===================================================================== *)

(** [parts.filter((p) => p !== undefined && p !== null)]. *)
Definition present (p : Js.prim) : bool :=
  match p with
  | Js.Undefined | Js.Null => false
  | _ => true
  end.

(** [cacheKey(...parts)]. *)
Definition cacheKey (parts : list Js.prim) : string :=
  Js.join "::" (List.map Js.String (List.filter present parts)).

(** The key builder as the specification words it: absent values are
    discarded and the string forms of the others are joined with ["::"]. *)
Fixpoint buildKey (parts : list Js.prim) : string :=
  match parts with
  | [] => EmptyString
  | p :: rest =>
      if present p then
        if existsb present rest then Js.String p +:+ "::" +:+ buildKey rest
        else Js.String p
      else buildKey rest
  end.

(* ===================================================================== *)
(** * [src/api/client.ts]: the failure classifier *)
(* ===================================================================== *)

(** [response.data]. *)
Record ResponseData := { data_message : option string }.

(** [err.response]: [{ data?: { message? }, headers?: Record<string, string> }]. *)
Record Response := {
  response_data : option ResponseData;
  response_headers : option (gmap string string);
}.

(** The fields [friendlyError] reads from an object. *)
Record ErrorFields := {
  message : string;
  status : option Js.number;
  response : option Response;
}.

(** A caught value ([err: unknown]) as the commands meet it: a primitive, or
    an object that is or is not an instance of [Error]. What [Octokit] and
    the store throw is of this kind. Values whose string conversion is
    another or fails (arrays, objects with a [toString] of their own,
    objects without a prototype) are in [value] below. *)
Inductive unknown :=
| Primitive (p : Js.prim)
| Object (instanceofError : bool) (fields : ErrorFields).

(** [String(err)]: a plain object prints as ["[object Object]"], an [Error]
    as its name and message. *)
Definition String_unknown (err : unknown) : string :=
  match err with
  | Primitive p => Js.String p
  | Object false _ => "[object Object]"
  | Object true e =>
      if Js.truthy (message e) then "Error: " +:+ message e else "Error"
  end.

(** [e.response?.data?.message ?? (the empty string)]. *)
Definition apiMsg_of (e : ErrorFields) : string :=
  match response e with
  | Some r =>
      match response_data r with
      | Some d => default EmptyString (data_message d)
      | None => EmptyString
      end
  | None => EmptyString
  end.

(** [e.response?.headers?.["retry-after"]]. *)
Definition retryAfter_of (e : ErrorFields) : option string :=
  match response e with
  | Some r =>
      match response_headers r with
      | Some h => h !! "retry-after"
      | None => None
      end
  | None => None
  end.

(** [status === n]. *)
Definition status_is (st : option Js.number) (n : Z) : bool :=
  match st with
  | Some s => Js.strict_eq s (Js.Int n)
  | None => false
  end.

(** [retryAfter ? .. : ..]: present and not the empty string. *)
Definition header_truthy (h : option string) : bool :=
  match h with
  | Some s => Js.truthy s
  | None => false
  end.

(** [friendlyError(err)]. *)
Definition friendlyError (err : unknown) : string :=
  match err with
  | Primitive _ | Object false _ => String_unknown err
  | Object true e =>
      let status := status e in
      let apiMsg := apiMsg_of e in
      let retryAfter := retryAfter_of e in
      if status_is status 401 then
        "Authentication failed — run `ghf auth login` to refresh your token."
      else if status_is status 403 then
        if Js.includes (Js.toLowerCase apiMsg) "rate limit" then
          let wait :=
            if header_truthy retryAfter
            then " Try again in " +:+ default EmptyString retryAfter +:+ "s."
            else " Wait a few minutes." in
          "API rate limit exceeded." +:+ wait +:+
          " Authenticate with a token for higher limits."
        else
          "Forbidden (403) — your token may be missing required scopes." +:+
          (if Js.truthy apiMsg then " GitHub says: " +:+ apiMsg else EmptyString)
      else if status_is status 404 then
        "Not found (404) — check the owner/repo name is correct."
      else if status_is status 422 then
        "Validation error (422)" +:+
        (if Js.truthy apiMsg then ": " +:+ apiMsg else " — check your input.")
      else if status_is status 429 then
        let wait :=
          if header_truthy retryAfter
          then " Retry after " +:+ default EmptyString retryAfter +:+ "s."
          else EmptyString in
        "Secondary rate limit hit (429)." +:+ wait
      else if status_is status 451 then
        "Content blocked (451) — this resource is unavailable in your region."
      else
        if Js.truthy apiMsg then apiMsg else message e
  end.

(* ===================================================================== *)
(** * Effects: state passing with exceptions *)
(* ===================================================================== *)

(** The outcome of a call: it returns a value or throws one. *)
Inductive result (A : Type) :=
| Returned (a : A)
| Thrown (err : unknown).
Arguments Returned {A} a.
Arguments Thrown {A} err.

(** A computation over a state [S]; what it did to the state before it
    threw stays done. *)
Definition Eff (S A : Type) : Type := S -> result A * S.

Definition ret {S A} (a : A) : Eff S A := fun s => (Returned a, s).

Definition bind {S A B} (m : Eff S A) (k : A -> Eff S B) : Eff S B :=
  fun s =>
    match m s with
    | (Returned a, s') => k a s'
    | (Thrown err, s') => (Thrown err, s')
    end.

(** [try { m } catch (err) { handler }]. *)
Definition try_catch {S A} (m : Eff S A) (handler : unknown -> Eff S A) : Eff S A :=
  fun s =>
    match m s with
    | (Returned a, s') => (Returned a, s')
    | (Thrown err, s') => handler err s'
    end.

Declare Scope eff_scope.
Delimit Scope eff_scope with eff.
Notation "x <- m ;; k" := (bind m (fun x => k))
  (at level 100, m at next level, right associativity) : eff_scope.
Notation "m ;;; k" := (bind m (fun _ => k))
  (at level 100, right associativity) : eff_scope.
Local Open Scope eff_scope.

(* ===================================================================== *)
(** * [String] and [friendlyError] on any value *)
(* ===================================================================== *)

(** A value as a caller may pass it for [err: unknown]: beside the values
    of [unknown] there are arrays, objects with another [toString] than
    that of [Object.prototype] (it returns a primitive or throws) and
    objects without a prototype. An [Error] has its [name] here, which
    [String] prints. *)
#[warnings="-register-all"] Inductive value :=
| Prim (p : Js.prim)
| ErrorInstance (name : string) (fields : ErrorFields)  (* instanceof Error *)
| PlainObject (fields : ErrorFields)                    (* { .. } *)
| Array (items : list value)                            (* [ .. ] *)
| OwnToString (toString : result Js.prim)     (* toString() { .. } *)
| NullPrototype.                              (* Object.create(null) *)

(** A caught value among all values; an [Error] made by [new Error(..)] is
    named ["Error"]. *)
Definition as_value (err : unknown) : value :=
  match err with
  | Primitive p => Prim p
  | Object true fields => ErrorInstance "Error" fields
  | Object false fields => PlainObject fields
  end.

(** [err instanceof Error]. *)
Definition instanceof_Error (err : value) : bool :=
  match err with
  | ErrorInstance _ _ => true
  | _ => false
  end.

(** The [TypeError] of the engine for an object that has neither a
    [toString] nor a [valueOf] to call. *)
Definition cannot_convert : unknown :=
  Object true {| message := "Cannot convert object to primitive value";
                 status := None; response := None |}.

(** [Error.prototype.toString]: the name, the message, or both with a colon
    between them. *)
Definition Error_toString (name msg : string) : string :=
  if negb (Js.truthy name) then msg
  else if negb (Js.truthy msg) then name
  else name +:+ ": " +:+ msg.

(** [arr.join(",")] over the conversions of the elements, from left to
    right: the first that throws ends it. *)
Fixpoint join_results (l : list (result string)) : result string :=
  match l with
  | [] => Returned EmptyString
  | Thrown err :: _ => Thrown err
  | Returned s :: rest =>
      match rest with
      | [] => Returned s
      | _ :: _ =>
          match join_results rest with
          | Returned t => Returned (s +:+ "," +:+ t)
          | Thrown err => Thrown err
          end
      end
  end.

(** [String(v)]: for an object, what its [toString] returns, converted. An
    array prints its elements with commas between them, [undefined] and
    [null] among them as nothing. *)
Fixpoint String_value (v : value) : result string :=
  match v with
  | Prim p => Returned (Js.String p)
  | ErrorInstance name fields => Returned (Error_toString name (message fields))
  | PlainObject _ => Returned "[object Object]"
  | Array items =>
      join_results
        (List.map (fun x => match x with
                            | Prim Js.Undefined | Prim Js.Null => Returned EmptyString
                            | _ => String_value x
                            end) items)
  | OwnToString (Returned p) => Returned (Js.String p)
  | OwnToString (Thrown err) => Thrown err
  | NullPrototype => Thrown cannot_convert
  end.

(** [friendlyError(err)] for any value: the first line,
    [if (!(err instanceof Error)) return String(err)], and then the
    classification of an [Error] as above, which reads its fields and
    does not throw. *)
Definition friendlyError_value (err : value) : result string :=
  match err with
  | ErrorInstance _ fields => Returned (friendlyError (Object true fields))
  | _ => String_value err
  end.

(** Nothing in the value stops [String]: no object without a prototype and
    no failing [toString], at any depth of arrays. *)
Fixpoint stringable (v : value) : bool :=
  match v with
  | Array items => forallb stringable items
  | OwnToString (Thrown _) | NullPrototype => false
  | _ => true
  end.

(** Induction on values, with the elements of an array at hand. *)
Section ValueInduction.
Variable P : value -> Prop.
Hypothesis on_prim : forall p, P (Prim p).
Hypothesis on_error : forall name fields, P (ErrorInstance name fields).
Hypothesis on_plain : forall fields, P (PlainObject fields).
Hypothesis on_array : forall items, Forall P items -> P (Array items).
Hypothesis on_own : forall toString, P (OwnToString toString).
Hypothesis on_bare : P NullPrototype.

Fixpoint value_induction (v : value) : P v :=
  match v with
  | Prim p => on_prim p
  | ErrorInstance name fields => on_error name fields
  | PlainObject fields => on_plain fields
  | Array items =>
      on_array items
        ((fix all (l : list value) : Forall P l :=
            match l with
            | [] => @List.Forall_nil _ P
            | x :: rest => @List.Forall_cons _ P x rest (value_induction x) (all rest)
            end) items)
  | OwnToString toString => on_own toString
  | NullPrototype => on_bare
  end.

End ValueInduction.

(* ===================================================================== *)
(** * [src/utils/cache.ts]: the store *)
(* ===================================================================== *)

(** [interface CacheEntry { data: unknown; ts: number }]; the payload type
    is a parameter, as in [cacheGet<T>]. *)
Record CacheEntry (V : Type) := { data : V; ts : Z }.
Arguments data {V} _.
Arguments ts {V} _.

(** [const TTL_MS = 5 * 60 * 1000]. *)
Definition TTL_MS : Z := 5 * 60 * 1000.

(** What the module asks of its surroundings: the [Conf] instance [store]
    (package [conf], not part of this repository) and the clock. Each call
    may throw. *)
Class Conf (W V : Type) := {
  store_get : string -> Eff W (option (CacheEntry V));
  store_set : string -> CacheEntry V -> Eff W unit;
  store_delete : string -> Eff W unit;
  store_clear : Eff W unit;
  Date_now : Eff W Z;
}.

(** Whether a payload is [null]. [cacheGet] returns the payload itself, so a
    caller that compares with [null] takes a stored [null] for a miss. *)
Class Nullable (V : Type) := is_null : V -> bool.

#[export] Instance prim_nullable : Nullable Js.prim :=
  fun p => match p with Js.Null => true | _ => false end.

Section CacheStore.
Context {W V : Type} `{!Conf W V}.

(** [cacheGet<T>(key): T | null]; [None] is [null]. *)
Definition cacheGet (key : string) : Eff W (option V) :=
  try_catch
    (entry <- store_get key ;;
     match entry with
     | None => ret None
     | Some entry =>
         now <- Date_now ;;
         if now - ts entry >? TTL_MS then
           (store_delete key ;;; ret None)
         else ret (Some (data entry))
     end)
    (fun _ => ret None).

(** [cacheSet(key, data)]. *)
Definition cacheSet (key : string) (data : V) : Eff W unit :=
  try_catch
    (now <- Date_now ;;
     store_set key {| data := data; ts := now |})
    (fun _ => ret tt).

(** [cacheClear()]. *)
Definition cacheClear : Eff W unit := store_clear.

(** [isCached(key)]: [cacheGet(key) !== null], on what [cacheGet] returns,
    which for a hit is the payload. *)
Definition isCached `{!Nullable V} (key : string) : Eff W bool :=
  hit <- cacheGet key ;;
  ret (match hit with
       | Some payload => negb (is_null payload)
       | None => false
       end).

End CacheStore.

(** The store of the test suite: [Conf] mocked by a [Map], the clock under
    fake timers (it moves only when told to). [writable = false] is a
    backing file that cannot be written: [set], [delete] and [clear] throw. *)
Record MockWorld (V : Type) := {
  clock : Z;
  entries : gmap string (CacheEntry V);
  writable : bool;
}.
Arguments clock {V} _.
Arguments entries {V} _.
Arguments writable {V} _.

Definition EACCES : unknown :=
  Object true {| message := "EACCES: permission denied"; status := None; response := None |}.

Definition mock_write {V} (f : gmap string (CacheEntry V) -> gmap string (CacheEntry V))
    : Eff (MockWorld V) unit :=
  fun w =>
    if writable w
    then (Returned tt, {| clock := clock w; entries := f (entries w); writable := true |})
    else (Thrown EACCES, w).

#[export] Instance MockConf (V : Type) : Conf (MockWorld V) V := {|
  store_get key := fun w => (Returned (entries w !! key), w);
  store_set key entry := mock_write (insert key entry);
  store_delete key := mock_write (delete key);
  store_clear := mock_write (fun _ => ∅);
  Date_now := fun w => (Returned (clock w), w);
|}.

(** [vi.advanceTimersByTime(ms)]. *)
Definition advanceTimersByTime {V} (ms : Z) (w : MockWorld V) : MockWorld V :=
  {| clock := clock w + ms; entries := entries w; writable := writable w |}.

(* ===================================================================== *)
(** * The paginated list commands *)
(* ===================================================================== *)

(** What a command does that can be seen from outside. [Fetch] records a
    call of the GitHub API for a page together with its outcome; the others
    are terminal output and the prompt. *)
Inductive event (V Item : Type) :=
| SpinnerStart (text : string)            (* ora(text).start() *)
| Fetch (page : Js.number) (r : result V) (* await getClient().rest...  *)
| SpinnerStop                             (* spinner.stop() *)
| SpinnerFail (text : string)             (* spinner.fail(text) *)
| PrintError (msg : string)               (* printError(msg) *)
| PrintTitle (title : string)             (* printTitle(title) *)
| Log (text : string)                     (* console.log(c.muted(text)) *)
| PrintTable (rows : list Item)           (* printTable(headers, items.map(..)) *)
| PrintPageInfo (page count perPage : Js.number) (* printPageInfo(..) *)
| AskLoadMore.                            (* await askLoadMore() *)
Arguments SpinnerStart {V Item} text.
Arguments Fetch {V Item} page r.
Arguments SpinnerStop {V Item}.
Arguments SpinnerFail {V Item} text.
Arguments PrintError {V Item} msg.
Arguments PrintTitle {V Item} title.
Arguments Log {V Item} text.
Arguments PrintTable {V Item} rows.
Arguments PrintPageInfo {V Item} page count perPage.
Arguments AskLoadMore {V Item}.

(** A running command: the world it acts on and what it has done so far. *)
Record Proc (W V Item : Type) := {
  world : W;
  out : list (event V Item);
}.
Arguments world {W V Item} _.
Arguments out {W V Item} _.

(** How one pass through the loop body ends. *)
Inductive control :=
| Return     (* [return] in the [catch] *)
| Break      (* [break] *)
| Continue.  (* falls through to [askLoadMore] *)

(** How the command ends: it is over, or it waits at the prompt for an
    answer that has not come. *)
Inductive outcome :=
| Done
| Suspended.

(** What differs between the paginated commands. *)
Record Listing (W V Item : Type) := {
  key_for : Js.number -> string;       (* cacheKey(tag, filters.., page, perPage) *)
  spinner_text : Js.number -> string;  (* the text given to ora *)
  request : Js.number -> Eff W V;      (* the API call for a page *)
  items_of : V -> list Item;           (* the rows of a page *)
  heading : Js.number -> V -> list (event V Item); (* printed before the rows *)
  empty_text : string;                 (* printed for a page without rows *)
  hasMore_of : Js.number -> V -> bool; (* const hasMore = .. *)
}.
Arguments key_for {W V Item} _ _.
Arguments spinner_text {W V Item} _ _.
Arguments request {W V Item} _ _.
Arguments items_of {W V Item} _ _.
Arguments heading {W V Item} _ _ _.
Arguments empty_text {W V Item} _.
Arguments hasMore_of {W V Item} _ _ _.

Section Paginate.
Context {W V Item : Type} `{!Conf W V}.
Variable L : Listing W V Item.
Variable allPages : bool.   (* opts.allPages *)
Variable perPage : Js.number.

Local Abbreviation Proc := (Proc W V Item).

(** Run a piece of [cache.ts] or of the API in the command's world. *)
Definition lift {A} (m : Eff W A) : Eff Proc A :=
  fun p => let (r, w) := m (world p) in (r, {| world := w; out := out p |}).

Definition emit (e : event V Item) : Eff Proc unit :=
  fun p => (Returned tt, {| world := world p; out := out p ++ [e] |}).

Definition emit_all (es : list (event V Item)) : Eff Proc unit :=
  fun p => (Returned tt, {| world := world p; out := out p ++ es |}).

Definition call_api (page : Js.number) (req : Eff W V) : Eff Proc V :=
  fun p => let (r, w) := req (world p) in
           (r, {| world := w; out := out p ++ [Fetch page r] |}).

(** The first half of the loop body: the page from the cache, or from the
    API ([None] when the call failed and the command returns). *)
Definition load (page : Js.number) : Eff Proc (option V) :=
  let key := key_for L page in
  cached <- lift (cacheGet key) ;;
  match cached with
  | Some v => ret (Some v)
  | None =>
      emit (SpinnerStart (spinner_text L page)) ;;;
      try_catch
        (data <- call_api page (request L page) ;;
         lift (cacheSet key data) ;;;
         emit SpinnerStop ;;;
         ret (Some data))
        (fun err =>
           emit (SpinnerFail "Failed") ;;;
           emit (PrintError (friendlyError err)) ;;;
           ret None)
  end.

(** The second half: print the page and decide whether to go on. *)
Definition show (page : Js.number) (v : V) : Eff Proc control :=
  emit_all (heading L page v) ;;;
  match items_of L v with
  | [] => emit (Log (empty_text L)) ;;; ret Break
  | _ :: _ =>
      emit (PrintTable (items_of L v)) ;;;
      emit (PrintPageInfo page (Js.length (items_of L v)) perPage) ;;;
      let hasMore := hasMore_of L page v in
      if negb hasMore || negb allPages then ret Break else ret Continue
  end.

(** What [show] prints after the heading, and what it decides, as functions
    of the page. *)
Definition rows_of (page : Js.number) (v : V) : list (event V Item) :=
  match items_of L v with
  | [] => [Log (empty_text L)]
  | _ :: _ => [PrintTable (items_of L v);
               PrintPageInfo page (Js.length (items_of L v)) perPage]
  end.

Definition verdict_of (page : Js.number) (v : V) : control :=
  match items_of L v with
  | [] => Break
  | _ :: _ => if negb (hasMore_of L page v) || negb allPages then Break else Continue
  end.

Definition iteration (page : Js.number) : Eff Proc control :=
  loaded <- load page ;;
  match loaded with
  | None => ret Return
  | Some v => show page v
  end.

(** [while (continueLoop) { .. continueLoop = await askLoadMore(); page++; }].
    [answers] are the operator's answers to the prompts, in order; the
    prompt blocks without a time limit, so when they run out the command
    stays suspended at it. *)
Fixpoint paginate (answers : list bool) (page : Js.number) : Eff Proc outcome :=
  c <- iteration page ;;
  match c with
  | Return | Break => ret Done
  | Continue =>
      emit AskLoadMore ;;;
      match answers with
      | [] => ret Suspended
      | continueLoop :: later =>
          if continueLoop then paginate later (Js.incr page) else ret Done
      end
  end.

End Paginate.

(** ** [repo list] ([src/commands/repo.ts], the action of [repo list]) *)

(** [getClient().rest.repos]: the two calls the command makes. *)
Class ReposApi (W Repo : Type) := {
  (* listForUser({ username, type, sort, per_page, page }) *)
  listForUser : string -> string -> string -> Js.number -> Js.number -> Eff W (list Repo);
  (* listForAuthenticatedUser({ type, sort, per_page, page }) *)
  listForAuthenticatedUser : string -> string -> Js.number -> Js.number -> Eff W (list Repo);
}.

(** [if (username)]: given and not empty. *)
Definition given (o : option string) : bool :=
  match o with
  | Some s => Js.truthy s
  | None => false
  end.

Section RepoList.
Context {W Repo : Type} `{!Conf W (list Repo), !ReposApi W Repo}.
Variable username : option string.   (* the [username] argument *)
Variables type sort : string.        (* opts.type, opts.sort *)
Variable allPages : bool.            (* opts.allPages *)
Variable limit : Js.number.          (* parseInt(opts.limit, 10) *)

(** [const perPage = Math.min(parseInt(opts.limit, 10), 100)]. *)
Definition repo_perPage : Js.number := Js.min limit (Js.Int 100).

Definition repo_list : Listing W (list Repo) Repo := {|
  key_for page :=
    cacheKey [Js.Str "repo.list"; Js.Str (default "__me__" username);
              Js.Str type; Js.Str sort; Js.Num page; Js.Num repo_perPage];
  spinner_text page := "Fetching page " +:+ Js.number_to_string page +:+ "…";
  request page :=
    if given username
    then listForUser (default EmptyString username) type sort repo_perPage page
    else listForAuthenticatedUser type sort repo_perPage page;
  items_of repos := repos;
  heading _ _ := [];
  empty_text := "  No repos found.";
  hasMore_of _ repos := Js.strict_eq (Js.length repos) repo_perPage;
|}.

(** The loop of the command, from page [page]. *)
Definition repo_list_loop (answers : list bool) (page : Js.number)
    : Eff (Proc W (list Repo) Repo) outcome :=
  paginate repo_list allPages repo_perPage answers page.

End RepoList.

(** ** [search repos] (the search command file) *)

(** [RepoSearchResult]. *)
Record RepoSearchResult (Hit : Type) := {
  total_count : Js.number;
  items : list Hit;
}.
Arguments total_count {Hit} _.
Arguments items {Hit} _.

(** [getClient().rest.search.repos({ q, sort, per_page, page })]. *)
Class SearchApi (W Hit : Type) := {
  search_repos : string -> string -> Js.number -> Js.number -> Eff W (RepoSearchResult Hit);
}.

(** The double quote character. *)
Definition dquote : string := String.String "034"%char EmptyString.

Section SearchRepos.
Context {W Hit : Type} `{!Conf W (RepoSearchResult Hit), !SearchApi W Hit}.
Variable query : string.                   (* the [query] argument *)
Variables language stars : option string.  (* opts.language, opts.stars *)
Variable sort : string.                    (* opts.sort *)
Variable allPages : bool.                  (* opts.allPages *)
Variable limit : Js.number.                (* parseInt(opts.limit, 10) *)
Variable start : Js.number.                (* parseInt(opts.page, 10) *)
Variable toLocaleString : Js.number -> string. (* depends on the locale *)

Definition search_perPage : Js.number := Js.min limit (Js.Int 100).

(** [let q = query; if (opts.language) q += ..; if (opts.stars) q += ..]. *)
Definition search_q : string :=
  let q := query in
  let q := if given language then q +:+ " language:" +:+ default EmptyString language else q in
  let q := if given stars then q +:+ " stars:" +:+ default EmptyString stars else q in
  q.

Definition search_repos_listing : Listing W (RepoSearchResult Hit) Hit := {|
  key_for page :=
    cacheKey [Js.Str "search.repos"; Js.Str search_q; Js.Str sort;
              Js.Num page; Js.Num search_perPage];
  spinner_text page :=
    "Searching repos: " +:+ dquote +:+ search_q +:+ dquote +:+
    " (page " +:+ Js.number_to_string page +:+ ")…";
  request page := search_repos search_q sort search_perPage page;
  items_of result := items result;
  heading page result :=
    let totalCount := total_count result in
    if Js.strict_eq page start
    then [PrintTitle ("Repo Search — " +:+ dquote +:+ query +:+ dquote +:+
                      " (" +:+ toLocaleString totalCount +:+ " results)")]
    else [];
  empty_text := "  No results.";
  hasMore_of page result :=
    let totalCount := total_count result in
    Js.strict_eq (Js.length (items result)) search_perPage
    && Js.lt (Js.mul page search_perPage) totalCount;
|}.

Definition search_repos_loop (answers : list bool) (page : Js.number)
    : Eff (Proc W (RepoSearchResult Hit) Hit) outcome :=
  paginate search_repos_listing allPages search_perPage answers page.

End SearchRepos.

(** ** A world to run the commands in *)

(** The mocked store together with a remote side that answers each page
    request in a fixed way. *)
Record Session (V : Type) := {
  disk : MockWorld V;
  remote : Js.number -> result V;
}.
Arguments disk {V} _.
Arguments remote {V} _.

Definition on_disk {V A} (m : Eff (MockWorld V) A) : Eff (Session V) A :=
  fun s => let (r, d) := m (disk s) in (r, {| disk := d; remote := remote s |}).

Definition ask_remote {V} (page : Js.number) : Eff (Session V) V :=
  fun s => (remote s page, s).

#[export] Instance SessionConf (V : Type) : Conf (Session V) V := {|
  store_get key := on_disk (store_get key);
  store_set key entry := on_disk (store_set key entry);
  store_delete key := on_disk (store_delete key);
  store_clear := on_disk store_clear;
  Date_now := on_disk Date_now;
|}.

#[export] Instance SessionRepos (Repo : Type) : ReposApi (Session (list Repo)) Repo := {|
  listForUser _ _ _ _ page := ask_remote page;
  listForAuthenticatedUser _ _ _ page := ask_remote page;
|}.

#[export] Instance SessionSearch (Hit : Type)
    : SearchApi (Session (RepoSearchResult Hit)) Hit := {|
  search_repos _ _ _ page := ask_remote page;
|}.

(** An empty store at time [0], writable, in front of [remote]. *)
Definition fresh_session {V Item} (remote : Js.number -> result V)
    : Proc (Session V) V Item :=
  {| world := {| disk := {| clock := 0; entries := ∅; writable := true |};
                 remote := remote |};
     out := [] |}.

(* ===================================================================== *)
(** * Notions used in the statements *)
(* ===================================================================== *)

(** No [":"] occurs in the string. *)
Fixpoint colon_free (s : string) : bool :=
  match s with
  | EmptyString => true
  | String.String c rest => negb (Ascii.eqb c ":") && colon_free rest
  end.

(** The status codes [friendlyError] has a message of its own for. *)
Definition mapped_statuses : list Z := [401; 403; 404; 422; 429; 451].




(** The shape of a command's output around its API calls. *)
Section Traces.
Context {W V Item : Type}.
Variable L : Listing W V Item.
Variable allPages : bool.
Variable perPage : Js.number.

(** A state after some more output. *)
Definition after (p : Proc W V Item) (w : W) (evs : list (event V Item))
    : Proc W V Item :=
  {| world := w; out := out p ++ evs |}.

Definition is_fetch (e : event V Item) : bool :=
  match e with
  | Fetch _ _ => true
  | _ => false
  end.

Definition is_prompt (e : event V Item) : bool :=
  match e with
  | AskLoadMore => true
  | _ => false
  end.

(** What a failed call for [page] leaves in the output: the spinner, the
    call, and what the [catch] does. *)
Definition failure_report (page : Js.number) (err : unknown) : list (event V Item) :=
  [SpinnerStart (spinner_text L page); Fetch page (Thrown err);
   SpinnerFail "Failed"; PrintError (friendlyError err)].

(** The heading of a page neither calls the API nor prompts. *)
Definition heading_quiet : Prop :=
  forall page v, forallb (fun e => negb (is_fetch e) && negb (is_prompt e))
                         (heading L page v) = true.

(** What comes after a shown page: the prompt when the loop goes on, and
    nothing at all, the command being over, when it does not. *)
Definition after_page (o : outcome) (page : Js.number) (v : V)
    (rest : list (event V Item)) : Prop :=
  match verdict_of L allPages page v with
  | Continue => exists later, rest = AskLoadMore :: later
  | _ => rest = [] /\ o = Done
  end.

(** What the rest of the loop may add after a pass that ended with [c]. *)
Definition follows (c : control) (o : outcome) (tail : list (event V Item)) : Prop :=
  match c with
  | Continue => exists later, tail = AskLoadMore :: later
  | _ => tail = [] /\ o = Done
  end.

(** Every API call in the output is followed in the expected way: a failed
    one by the failure report and nothing else, a successful one by the
    page and what comes after a page. *)
Fixpoint orderly (o : outcome) (evs : list (event V Item)) : Prop :=
  match evs with
  | [] => True
  | Fetch page (Thrown err) :: post =>
      post = [SpinnerFail "Failed"; PrintError (friendlyError err)] /\ o = Done
  | Fetch page (Returned v) :: post =>
      (exists rest,
          post = SpinnerStop :: heading L page v ++ rows_of L perPage page v ++ rest
          /\ after_page o page v rest)
      /\ orderly o post
  | _ :: post => orderly o post
  end.

End Traces.

(* ===================================================================== *)
(** * [src/utils/paginate.ts]: the pager status line *)
(* ===================================================================== *)

(** [a + b] and [a - b] on numbers. *)
Definition number_add (a b : Js.number) : Js.number :=
  match a, b with
  | Js.Int x, Js.Int y => Js.Int (x + y)
  | _, _ => Js.NaN
  end.

Definition number_sub (a b : Js.number) : Js.number :=
  match a, b with
  | Js.Int x, Js.Int y => Js.Int (x - y)
  | _, _ => Js.NaN
  end.

(** [const showing = (page - 1) * perPage + count]. *)
Definition showing (page count perPage : Js.number) : Js.number :=
  number_add (Js.mul (number_sub page (Js.Int 1)) perPage) count.

(** The line feed character. *)
Definition newline : string := String.String "010"%char EmptyString.

(** [printPageInfo(page, count, perPage)]: the text it logs (dimmed). *)
Definition printPageInfo (page count perPage : Js.number) : string :=
  newline +:+ "  Page " +:+ Js.number_to_string page +:+
  " · showing " +:+ Js.number_to_string (showing page count perPage) +:+
  " total · " +:+ Js.number_to_string count +:+ " on this page".

(** The rows printed by the tables of an output. *)
Fixpoint rows_printed {V Item : Type} (evs : list (event V Item)) : Z :=
  match evs with
  | [] => 0
  | PrintTable rows :: rest => Z.of_nat (List.length rows) + rows_printed rest
  | _ :: rest => rows_printed rest
  end.

(** Every status line of the output, read with [showing], gives the rows
    printed up to it, counted from [shown]. *)
Fixpoint tallied {V Item : Type} (shown : Z) (evs : list (event V Item)) : Prop :=
  match evs with
  | [] => True
  | PrintTable rows :: rest => tallied (shown + Z.of_nat (List.length rows)) rest
  | PrintPageInfo page count perPage :: rest =>
      showing page count perPage = Js.Int shown /\ tallied shown rest
  | _ :: rest => tallied shown rest
  end.

Definition is_title {V Item : Type} (e : event V Item) : bool :=
  match e with
  | PrintTitle _ => true
  | _ => false
  end.

(* ===================================================================== *)
(** * [src/utils/display.ts] *)
(* ===================================================================== *)

(** A string by its UTF-16 code units, as [length] and [slice] count it. *)
Definition ustring : Type := list N.

(** ["…"], one code unit (U+2026). *)
Definition ellipsis : ustring := [8230%N].

(** The integer an index argument stands for ([NaN] is [0]). *)
Definition to_integer (n : Js.number) : Z :=
  match n with
  | Js.NaN => 0
  | Js.Int z => z
  end.

(** [s.slice(0, end)]: a negative [end] counts from the end of [s]. *)
Definition slice_to {A} (s : list A) (end_ : Js.number) : list A :=
  let len := Z.of_nat (List.length s) in
  let relative := to_integer end_ in
  let final := if relative <? 0 then Z.max (len + relative) 0 else Z.min relative len in
  take (Z.to_nat final) s.

(** [truncate(str, max)]. *)
Definition truncate (str : ustring) (max : Js.number) : ustring :=
  match str with
  | [] => []
  | _ :: _ =>
      if Js.lt max (Js.length str)
      then slice_to str (number_sub max (Js.Int 1)) ++ ellipsis
      else str
  end.

(** [s.toUpperCase()], on the ASCII letters; other bytes are kept. *)
Definition upper_ascii (c : ascii) : ascii :=
  let n := nat_of_ascii c in
  if ((97 <=? n) && (n <=? 122))%nat then ascii_of_nat (n - 32) else c.

Fixpoint toUpperCase (s : string) : string :=
  match s with
  | EmptyString => EmptyString
  | String.String c rest => String.String (upper_ascii c) (toUpperCase rest)
  end.

(** The string has ASCII characters only (every byte is below 128). On
    such strings [toLowerCase] and [toUpperCase] above are the code's: they
    change the letters A-Z and a-z and nothing else. A string with other
    characters is mapped by Unicode rules in the code
    (["ß".toUpperCase()] is ["SS"]), which the two functions do not follow. *)
Fixpoint ascii_only (s : string) : bool :=
  match s with
  | EmptyString => true
  | String.String c rest => (nat_of_ascii c <? 128)%nat && ascii_only rest
  end.

(** The colours [c.badge] takes. *)
Inductive chalk_color := green | red | yellow | blue | magenta | cyan | white.

(** A piece of text as [chalk] styles it. *)
Record styled := {
  styled_color : chalk_color;
  styled_bold : bool;
  styled_text : string;
}.

(** [c.badge(s, color)]: [chalk[color].bold(` ${s} `)]. *)
Definition badge (s : string) (color : chalk_color) : styled :=
  {| styled_color := color; styled_bold := true; styled_text := " " +:+ s +:+ " " |}.

(** [stateBadge(state)]. *)
Definition stateBadge (state : string) : styled :=
  let s := Js.toLowerCase state in
  if String.eqb s "open" then badge "OPEN" green
  else if String.eqb s "closed" then badge "CLOSED" red
  else if String.eqb s "merged" then badge "MERGED" magenta
  else if String.eqb s "success" then badge "SUCCESS" green
  else if String.eqb s "failure" then badge "FAILURE" red
  else if String.eqb s "pending" || String.eqb s "queued" || String.eqb s "in_progress"
  then badge (toUpperCase s) yellow
  else badge (toUpperCase state) white.

(** What [printError] writes to the error stream: the red headline and,
    when there is one, the dimmed detail below it. *)
Record error_report := {
  headline : string;
  detail : option string;
}.

(** [printError(msg, err)]; a call without [err] passes [undefined]. *)
Definition printError (msg : string) (err : unknown) : error_report :=
  let detail :=
    match err with
    | Object true e => message e
    | Primitive Js.Undefined | Primitive Js.Null => Js.String (Js.Str EmptyString)
    | _ => String_unknown err
    end in
  {| headline := "✖  " +:+ msg;
     detail := if Js.truthy detail then Some (newline +:+ "   " +:+ detail) else None |}.

(** [printError(msg, err)] for any value: [String(err ?? (the empty string))]
    may throw, and then nothing has been written. *)
Definition printError_value (msg : string) (err : value) : result error_report :=
  let detail :=
    match err with
    | ErrorInstance _ fields => Returned (message fields)
    | Prim Js.Undefined | Prim Js.Null => Returned (Js.String (Js.Str EmptyString))
    | _ => String_value err
    end in
  match detail with
  | Returned detail =>
      Returned
        {| headline := "✖  " +:+ msg;
           detail := if Js.truthy detail
                     then Some (newline +:+ "   " +:+ detail) else None |}
  | Thrown thrown => Thrown thrown
  end.

(* ===================================================================== *)
(** * [splitRepo] ([src/commands/repo.ts]) *)
(* ===================================================================== *)

(** A step of a command: it goes on with a value, or the process exits after
    reporting an error. *)
Inductive step (A : Type) :=
| GoesOn (a : A)
| ProcessExit (report : error_report) (code : Z).
Arguments GoesOn {A} a.
Arguments ProcessExit {A} report code.

(** [s.split(sep)] for a separator of one character. *)
Fixpoint split (sep : ascii) (s : string) : list string :=
  match s with
  | EmptyString => [EmptyString]
  | String.String c rest =>
      if Ascii.eqb c sep then EmptyString :: split sep rest
      else
        match split sep rest with
        | first :: others => String.String c first :: others
        | [] => [String.String c EmptyString]
        end
  end.

(** [splitRepo(ownerRepo)]. *)
Definition splitRepo (ownerRepo : string) : step (string * string) :=
  let parts := split "/" ownerRepo in
  let owner := parts !! 0%nat in
  let repo := parts !! 1%nat in
  if negb (given owner) || negb (given repo) then
    ProcessExit
      (printError ("Invalid format. Use owner/repo (e.g. " +:+ dquote +:+
                   "torvalds/linux" +:+ dquote +:+ ")")
         (Primitive Js.Undefined))
      1
  else GoesOn (default EmptyString owner, default EmptyString repo).

(** No ["/"] occurs in the string. *)
Fixpoint slash_free (s : string) : bool :=
  match s with
  | EmptyString => true
  | String.String c rest => negb (Ascii.eqb c "/") && slash_free rest
  end.

(* ===================================================================== *)
(** * [src/utils/config.ts] and the client of [src/api/client.ts] *)
(* ===================================================================== *)

(** [new Octokit({ auth, userAgent })]: what the client was built with. *)
Record Octokit := {
  auth : option string;
  userAgent : string;
}.

(** The token in the [Conf] store of [config.ts] and the module variable
    [_client] of [client.ts]. *)
Record ClientState := {
  stored_token : option string;
  _client : option Octokit;
}.

(** [getToken()], [setToken(token)], [clearToken()]. *)
Definition getToken (s : ClientState) : option string := stored_token s.

Definition setToken (token : string) (s : ClientState) : ClientState :=
  {| stored_token := Some token; _client := _client s |}.

Definition clearToken (s : ClientState) : ClientState :=
  {| stored_token := None; _client := _client s |}.

(** [getClient()]. *)
Definition getClient (s : ClientState) : Octokit * ClientState :=
  match _client s with
  | Some client => (client, s)
  | None =>
      let token := getToken s in
      let client := {| auth := token; userAgent := "ghf/1.0.0" |} in
      (client, {| stored_token := stored_token s; _client := Some client |})
  end.

(** [resetClient()]. *)
Definition resetClient (s : ClientState) : ClientState :=
  {| stored_token := stored_token s; _client := None |}.

(** [isAuthenticated()]: [Boolean(getToken())]. *)
Definition isAuthenticated (s : ClientState) : bool := given (getToken s).

(** The escape character. *)
Definition esc : string := String.String "027"%char EmptyString.

(** [requireAuth()]: [None] when it returns, the text written and the exit
    code when it ends the process. *)
Definition requireAuth (s : ClientState) : option (string * Z) :=
  if negb (isAuthenticated s) then
    Some (esc +:+ "[31m✖  Not authenticated." +:+ esc +:+ "[0m Run " +:+ esc +:+
          "[36mghf auth login" +:+ esc +:+ "[0m to add your token.", 1)
  else None.

(** How [auth login] ends. *)
Inductive login_outcome :=
| LoggedIn (login : string)
| LoginFailed (report : error_report) (code : Z).

(** [auth login], from the point where the token is known: the [try] with
    its [catch]. [getAuthenticated] is the answer of the API to
    [client.rest.users.getAuthenticated()]: the login name, or a failure. *)
Definition auth_login (getAuthenticated : Octokit -> result string)
    (token : string) (s : ClientState) : login_outcome * ClientState :=
  let s := resetClient s in
  let s := setToken token s in
  let s := resetClient s in
  let (client, s) := getClient s in
  match getAuthenticated client with
  | Returned login => (LoggedIn login, s)
  | Thrown err =>
      let s := clearToken s in
      let s := resetClient s in
      (LoginFailed (printError "Invalid token or insufficient scopes." err) 1, s)
  end.

(** [auth logout]: what it prints and the state it leaves. *)
Definition auth_logout (s : ClientState) : string * ClientState :=
  if negb (given (getToken s)) then ("Not logged in.", s)
  else
    let s := clearToken s in
    let s := resetClient s in
    ("✔  Logged out — token removed from local storage.", s).

(* ===================================================================== *)
(** * [pr list] and [issue list] *)
(* ===================================================================== *)

(** [getClient().rest.pulls.list({ owner, repo, state, base, per_page, page })]. *)
Class PullsApi (W PR : Type) := {
  pulls_list : string -> string -> string -> option string -> Js.number -> Js.number
               -> Eff W (list PR);
}.

(** [opts.state === "all" ? "all" : opts.state === "closed" ? "closed" : "open"]. *)
Definition pr_state (state : string) : string :=
  if String.eqb state "all" then "all"
  else if String.eqb state "closed" then "closed"
  else "open".

(** [x] as an argument of [cacheKey] when it may be [undefined]. *)
Definition optional (x : option string) : Js.prim :=
  match x with
  | Some s => Js.Str s
  | None => Js.Undefined
  end.

Section PrList.
Context {W PR : Type} `{!Conf W (list PR), !PullsApi W PR}.
Variables owner repo : string.   (* from [splitRepo(ownerRepo)] *)
Variable opts_state : string.    (* opts.state *)
Variable base : option string.   (* opts.base *)
Variable allPages : bool.        (* opts.allPages *)
Variable limit : Js.number.      (* parseInt(opts.limit, 10) *)

Definition pr_perPage : Js.number := Js.min limit (Js.Int 100).

Definition pr_list : Listing W (list PR) PR := {|
  key_for page :=
    cacheKey [Js.Str "pr.list"; Js.Str owner; Js.Str repo; Js.Str (pr_state opts_state);
              optional base; Js.Num page; Js.Num pr_perPage];
  spinner_text page := "Fetching page " +:+ Js.number_to_string page +:+ "…";
  request page := pulls_list owner repo (pr_state opts_state) base pr_perPage page;
  items_of prs := prs;
  heading _ _ := [];
  empty_text := "  No pull requests.";
  hasMore_of _ prs := Js.strict_eq (Js.length prs) pr_perPage;
|}.

Definition pr_list_loop (answers : list bool) (page : Js.number)
    : Eff (Proc W (list PR) PR) outcome :=
  paginate pr_list allPages pr_perPage answers page.

End PrList.

(** [getClient().rest.issues.listForRepo({ owner, repo, state, labels,
    assignee, per_page, page })]. *)
Class IssuesApi (W Issue : Type) := {
  listForRepo : string -> string -> string -> option string -> option string
                -> Js.number -> Js.number -> Eff W (list Issue);
}.

Section IssueList.
Context {W Issue : Type} `{!Conf W (list Issue), !IssuesApi W Issue}.
Variable pull_request : Issue -> bool.  (* "pull_request" in i && i.pull_request *)
Variables owner repo : string.          (* from [splitRepo(ownerRepo)] *)
Variable state : string.                (* opts.state *)
Variables label assignee : option string. (* opts.label, opts.assignee *)
Variable allPages : bool.               (* opts.allPages *)
Variable limit : Js.number.             (* parseInt(opts.limit, 10) *)

Definition issue_perPage : Js.number := Js.min limit (Js.Int 100).

(** The page as the command keeps it: what the API returned, without the
    pull requests. The call and the filter are one step of the [try], and
    [Fetch] records the outcome of both. *)
Definition issue_request (page : Js.number) : Eff W (list Issue) :=
  data <- listForRepo owner repo state label assignee issue_perPage page ;;
  ret (List.filter (fun i => negb (pull_request i)) data).

Definition issue_list : Listing W (list Issue) Issue := {|
  key_for page :=
    cacheKey [Js.Str "issue.list"; Js.Str owner; Js.Str repo; Js.Str state;
              optional label; optional assignee; Js.Num page; Js.Num issue_perPage];
  spinner_text page := "Fetching page " +:+ Js.number_to_string page +:+ "…";
  request page := issue_request page;
  items_of issues := issues;
  heading _ _ := [];
  empty_text := "  No issues.";
  hasMore_of _ issues := Js.strict_eq (Js.length issues) issue_perPage;
|}.

Definition issue_list_loop (answers : list bool) (page : Js.number)
    : Eff (Proc W (list Issue) Issue) outcome :=
  paginate issue_list allPages issue_perPage answers page.

End IssueList.

#[export] Instance SessionPulls (PR : Type) : PullsApi (Session (list PR)) PR := {|
  pulls_list _ _ _ _ _ page := ask_remote page;
|}.

#[export] Instance SessionIssues (Issue : Type) : IssuesApi (Session (list Issue)) Issue := {|
  listForRepo _ _ _ _ _ _ page := ask_remote page;
|}.

(** Time passes for the store of a session. *)
Definition session_advance {V} (ms : Z) (s : Session V) : Session V :=
  {| disk := advanceTimersByTime ms (disk s); remote := remote s |}.

(** A command started in a world, with nothing printed yet. *)
Definition started {W V Item} (w : W) : Proc W V Item := {| world := w; out := [] |}.

(** How many API calls and how many prompts an output has. *)
Definition fetches {V Item : Type} (evs : list (event V Item)) : nat :=
  List.length (List.filter is_fetch evs).

Definition prompts {V Item : Type} (evs : list (event V Item)) : nat :=
  List.length (List.filter is_prompt evs).

(** How many of the operator's answers are yes. *)
Definition approvals (answers : list bool) : nat :=
  List.length (List.filter (fun a : bool => a) answers).

(* ===================================================================== *)
(** * Strings *)
(* ===================================================================== *)

Section StringFacts.

Lemma startsWith_append (n rest : string) : Js.startsWith (n +:+ rest) n = true.
Proof.
  induction n as [|c n IH]; simpl; [reflexivity |].
  now rewrite Ascii.eqb_refl.
Qed.

Lemma includes_here (n rest : string) : Js.includes (n +:+ rest) n = true.
Proof.
  destruct (n +:+ rest) eqn:E; simpl; rewrite <- E, startsWith_append; reflexivity.
Qed.

Lemma includes_skip (a hay n : string) :
  Js.includes hay n = true -> Js.includes (a +:+ hay) n = true.
Proof.
  intros H. induction a as [|c a IH]; simpl; [exact H |].
  rewrite IH. apply orb_true_r.
Qed.

Lemma colon_free_append (a b : string) :
  colon_free (a +:+ b) = colon_free a && colon_free b.
Proof.
  induction a as [|c a IH]; simpl; [reflexivity |].
  now rewrite IH, andb_assoc.
Qed.

(** Two strings without colons that are followed by a colon end at the same
    place. *)
Lemma split_at_colon (a b r r' : string) :
  colon_free a = true -> colon_free b = true ->
  a +:+ String.String ":" r = b +:+ String.String ":" r' ->
  a = b /\ r = r'.
Proof.
  revert b. induction a as [|x a IH]; intros [|y b]; simpl; intros Ha Hb E.
  - now inversion E.
  - inversion E; subst y. now rewrite Ascii.eqb_refl in Hb.
  - inversion E; subst x. now rewrite Ascii.eqb_refl in Ha.
  - apply andb_true_iff in Ha as [_ Ha]. apply andb_true_iff in Hb as [_ Hb].
    inversion E; subst y. destruct (IH b Ha Hb) as [-> ->]; auto.
Qed.

Lemma colon_free_no_colon (a b r : string) :
  colon_free a = true -> a <> b +:+ String.String ":" r.
Proof.
  intros Ha ->. rewrite colon_free_append in Ha. simpl in Ha.
  now rewrite andb_false_r in Ha.
Qed.

(** Joining with ["::"] loses nothing when no component has a colon and
    there is at least one component. *)
Lemma join_injective (xs ys : list string) :
  Forall (fun s => colon_free s = true) xs ->
  Forall (fun s => colon_free s = true) ys ->
  xs <> [] -> ys <> [] ->
  Js.join "::" xs = Js.join "::" ys -> xs = ys.
Proof.
  intros Hx. revert ys.
  induction Hx as [|x xs Hcx Hxs IH]; intros ys Hy Nx Ny E; [now destruct Nx |].
  destruct Hy as [|y ys Hcy Hys]; [now destruct Ny |].
  destruct xs as [|x' xs], ys as [|y' ys]; cbn [Js.join] in E.
  - now subst.
  - exfalso. eapply colon_free_no_colon; [exact Hcx | exact E].
  - exfalso. eapply colon_free_no_colon; [exact Hcy | symmetry; exact E].
  - destruct (split_at_colon _ _ _ _ Hcx Hcy E) as [-> E'].
    injection E' as E'.
    f_equal. apply IH; [exact Hys | discriminate | discriminate | exact E'].
Qed.

Lemma uint_colon_free (d : Decimal.uint) :
  colon_free (NilEmpty.string_of_uint d) = true.
Proof. induction d; simpl; auto. Qed.

Lemma number_colon_free (n : Js.number) :
  colon_free (Js.number_to_string n) = true.
Proof.
  destruct n as [|z]; [reflexivity |].
  unfold Js.number_to_string, NilZero.string_of_int, NilZero.string_of_uint.
  destruct (Z.to_int z) as [d|d]; destruct d; simpl; auto using uint_colon_free.
Qed.

Lemma to_int_proper (z : Z) :
  Z.to_int z <> Decimal.Pos Decimal.Nil /\ Z.to_int z <> Decimal.Neg Decimal.Nil.
Proof.
  destruct z as [|p|p]; simpl; split; try discriminate;
    intros [= E]; now apply DecimalPos.Unsigned.to_uint_nonnil in E.
Qed.

(** [String] tells numbers apart. *)
Lemma number_to_string_injective (m n : Js.number) :
  Js.number_to_string m = Js.number_to_string n -> m = n.
Proof.
  assert (nan : forall z, Js.number_to_string (Js.Int z) <> "NaN").
  { intros z E. unfold Js.number_to_string in E.
    pose proof (NilZero.isi (Z.to_int z)) as P.
    destruct (to_int_proper z) as [A B]. specialize (P A B).
    rewrite E in P. discriminate P. }
  destruct m as [|x], n as [|y]; intros E; auto.
  - symmetry in E. now apply nan in E.
  - now apply nan in E.
  - f_equal. apply DecimalZ.to_int_inj.
    destruct (to_int_proper x) as [A B], (to_int_proper y) as [C D].
    pose proof (NilZero.isi _ A B) as P. pose proof (NilZero.isi _ C D) as Q.
    unfold Js.number_to_string in E. rewrite E in P. congruence.
Qed.

End StringFacts.

(* ===================================================================== *)
(** * The key builder *)
(* ===================================================================== *)

Section KeyBuilder.

Lemma filter_nil_existsb {A} (f : A -> bool) (l : list A) :
  existsb f l = false <-> List.filter f l = [].
Proof.
  induction l as [|x l IH]; simpl; [tauto |].
  destruct (f x); simpl; [split; discriminate | exact IH].
Qed.

Lemma cacheKey_cons_absent (p : Js.prim) (rest : list Js.prim) :
  present p = false -> cacheKey (p :: rest) = cacheKey rest.
Proof. intros H. unfold cacheKey. simpl. now rewrite H. Qed.

Lemma cacheKey_cons_present (p : Js.prim) (rest : list Js.prim) :
  present p = true ->
  cacheKey (p :: rest) =
    if existsb present rest then Js.String p +:+ "::" +:+ cacheKey rest
    else Js.String p.
Proof.
  intros H. unfold cacheKey. simpl. rewrite H. simpl.
  destruct (existsb present rest) eqn:E.
  - destruct (List.filter present rest) eqn:F; [| reflexivity].
    apply filter_nil_existsb in F. congruence.
  - apply filter_nil_existsb in E. now rewrite E.
Qed.

Lemma cacheKey_buildKey (parts : list Js.prim) : cacheKey parts = buildKey parts.
Proof.
  induction parts as [|p rest IH]; [reflexivity |].
  simpl. destruct (present p) eqn:P.
  - rewrite cacheKey_cons_present by exact P. now rewrite IH.
  - rewrite cacheKey_cons_absent by exact P. exact IH.
Qed.

Lemma cacheKey_drops_absent (before after : list Js.prim) (p : Js.prim) :
  present p = false -> cacheKey (before ++ p :: after) = cacheKey (before ++ after).
Proof.
  intros H. unfold cacheKey. rewrite !List.filter_app. simpl. now rewrite H.
Qed.





End KeyBuilder.

(** C6. The key builder discards absent values ([undefined], [null]) and
    joins the string forms of the others with ["::"]: it agrees with the
    builder written from the specification's words, an absent value anywhere
    in the list changes nothing, the two keys named in the specification come
    out as stated, and the order of the values matters (two different
    colon-free values give different keys when they are swapped). Being a
    function, it gives the same key for the same list. *)
Theorem cacheKey_joins_present_values
    (parts before after : list Js.prim) (a b : string) :
  colon_free a = true -> colon_free b = true -> a <> b ->
  cacheKey parts = buildKey parts
  /\ cacheKey (before ++ Js.Undefined :: after) = cacheKey (before ++ after)
  /\ cacheKey (before ++ Js.Null :: after) = cacheKey (before ++ after)
  /\ cacheKey [Js.Str "pr.list"; Js.Str "acme"; Js.Str "widgets"; Js.Str "open";
               Js.Num (Js.Int 2); Js.Num (Js.Int 30)]
     = "pr.list::acme::widgets::open::2::30"
  /\ cacheKey [Js.Str "pr.list"; Js.Undefined; Js.Str "x"]
     = cacheKey [Js.Str "pr.list"; Js.Str "x"]
  /\ cacheKey [Js.Str a; Js.Str b] <> cacheKey [Js.Str b; Js.Str a].
Proof.
  intros Ha Hb Hab. repeat split.
  - apply cacheKey_buildKey.
  - now apply cacheKey_drops_absent.
  - now apply cacheKey_drops_absent.
  - intros E. apply Hab.
    apply join_injective in E; [now injection E | | | discriminate | discriminate];
      repeat constructor; assumption.
Qed.

Lemma cacheKey_joins_present_values_witness :
  cacheKey [Js.Str "a"; Js.Null; Js.Num (Js.Int 7)] =
    buildKey [Js.Str "a"; Js.Null; Js.Num (Js.Int 7)]
  /\ cacheKey [Js.Str "x"; Js.Str "y"] <> cacheKey [Js.Str "y"; Js.Str "x"].
Proof.
  pose proof (cacheKey_joins_present_values
                [Js.Str "a"; Js.Null; Js.Num (Js.Int 7)] [] [] "x" "y"
                eq_refl eq_refl ltac:(discriminate)) as H.
  split; [apply H | apply H].
Defined.




(* ===================================================================== *)
(** * The failure classifier *)
(* ===================================================================== *)

Section Classifier.

Lemma append_assoc (a b c : string) : (a +:+ b) +:+ c = a +:+ (b +:+ c).
Proof.
  induction a as [|x a IH]; [reflexivity |].
  change (String.String x ((a +:+ b) +:+ c) = String.String x (a +:+ (b +:+ c))).
  now rewrite IH.
Qed.

Lemma unmapped_status (st : option Js.number) :
  existsb (status_is st) mapped_statuses = false ->
  status_is st 401 = false /\ status_is st 403 = false /\ status_is st 404 = false
  /\ status_is st 422 = false /\ status_is st 429 = false /\ status_is st 451 = false.
Proof.
  unfold mapped_statuses. simpl. rewrite !orb_false_iff. tauto.
Qed.

(** The message for a primary rate limit with a [retry-after] header. *)
Lemma friendlyError_rate_limit (e : ErrorFields) (seconds : string) :
  status_is (status e) 403 = true ->
  Js.includes (Js.toLowerCase (apiMsg_of e)) "rate limit" = true ->
  retryAfter_of e = Some seconds -> Js.truthy seconds = true ->
  friendlyError (Object true e) =
    "API rate limit exceeded." +:+ (" Try again in " +:+ seconds +:+ "s.") +:+
    " Authenticate with a token for higher limits.".
Proof.
  intros S R H T. unfold friendlyError.
  assert (status_is (status e) 401 = false) as ->.
  { destruct (status e) as [[|z]|]; try discriminate. simpl in *.
    apply Z.eqb_eq in S. subst z. reflexivity. }
  rewrite S, R, H. simpl header_truthy. rewrite T. reflexivity.
Qed.

Lemma friendlyError_fallback (e : ErrorFields) :
  existsb (status_is (status e)) mapped_statuses = false ->
  friendlyError (Object true e) =
    if Js.truthy (apiMsg_of e) then apiMsg_of e else message e.
Proof.
  intros U. apply unmapped_status in U as (A & B & C & D & E & F).
  unfold friendlyError. now rewrite A, B, C, D, E, F.
Qed.

End Classifier.

(** C3, where the code departs from the claim. The message for status 404
    begins with a capital letter: the text ["not found"] as the claim quotes
    it does not occur in it. *)
Lemma not_found_is_capitalised :
  Js.includes
    (friendlyError
       (Object true {| message := "Not Found"; status := Some (Js.Int 404);
                       response := None |}))
    "not found" = false.
Proof. reflexivity. Qed.

(** C3, as the code has it. For a failure that is an [Error]: status 401
    gives a message that names the command to authenticate again; status 403
    with a provider message mentioning "rate limit" (in any letter case) and
    a [retry-after] header gives a message containing the header's value;
    status 404 gives a message containing ["Not found"], which is
    ["not found"] once letter case is ignored; a status without a message of
    its own gives the provider's message when there is one, and the error's
    own message otherwise. *)
Theorem friendlyError_mapping (e : ErrorFields) (seconds : string) :
  (status e = Some (Js.Int 401) ->
     Js.includes (friendlyError (Object true e)) "run `ghf auth login`" = true)
  /\ (status e = Some (Js.Int 403) ->
      Js.includes (Js.toLowerCase (apiMsg_of e)) "rate limit" = true ->
      retryAfter_of e = Some seconds -> Js.truthy seconds = true ->
      Js.includes (friendlyError (Object true e)) seconds = true)
  /\ (status e = Some (Js.Int 404) ->
      Js.includes (friendlyError (Object true e)) "Not found" = true
      /\ Js.includes (Js.toLowerCase (friendlyError (Object true e))) "not found" = true)
  /\ (existsb (status_is (status e)) mapped_statuses = false ->
      Js.truthy (apiMsg_of e) = true ->
      friendlyError (Object true e) = apiMsg_of e)
  /\ (existsb (status_is (status e)) mapped_statuses = false ->
      Js.truthy (apiMsg_of e) = false ->
      friendlyError (Object true e) = message e).
Proof.
  split; [| split; [| split; [| split]]].
  - intros S. unfold friendlyError. rewrite S. reflexivity.
  - intros S R H T.
    rewrite (friendlyError_rate_limit e seconds); auto; [| now rewrite S].
    apply includes_skip. rewrite append_assoc. apply includes_skip.
    rewrite append_assoc. apply includes_here.
  - intros S. unfold friendlyError. rewrite S. split; reflexivity.
  - intros U T. rewrite friendlyError_fallback by exact U. now rewrite T.
  - intros U T. rewrite friendlyError_fallback by exact U. now rewrite T.
Qed.

Lemma friendlyError_mapping_witness :
  let failure st msg hdrs :=
    {| message := "HttpError"; status := Some (Js.Int st);
       response := Some {| response_data := Some {| data_message := msg |};
                           response_headers := Some hdrs |} |} in
  Js.includes (friendlyError (Object true (failure 401 None ∅)))
    "run `ghf auth login`" = true
  /\ Js.includes
       (friendlyError (Object true (failure 403 (Some "API rate limit exceeded")
                                      {[ "retry-after" := "120" ]}))) "120" = true
  /\ Js.includes (friendlyError (Object true (failure 404 None ∅))) "Not found" = true
  /\ friendlyError (Object true (failure 999 (Some "weird failure") ∅)) = "weird failure"
  /\ friendlyError (Object true (failure 999 None ∅)) = "HttpError".
Proof.
  intros failure. split; [| split; [| split; [| split]]].
  - exact (proj1 (friendlyError_mapping (failure 401 None ∅) EmptyString) eq_refl).
  - exact (proj1 (proj2 (friendlyError_mapping
                           (failure 403 (Some "API rate limit exceeded")
                                    {[ "retry-after" := "120" ]}) "120"))
             eq_refl eq_refl eq_refl eq_refl).
  - exact (proj1 (proj1 (proj2 (proj2 (friendlyError_mapping
                                         (failure 404 None ∅) EmptyString))) eq_refl)).
  - exact (proj1 (proj2 (proj2 (proj2 (friendlyError_mapping
                                         (failure 999 (Some "weird failure") ∅)
                                         EmptyString)))) eq_refl eq_refl).
  - exact (proj2 (proj2 (proj2 (proj2 (friendlyError_mapping
                                         (failure 999 None ∅) EmptyString))))
             eq_refl eq_refl).
Defined.

(* ===================================================================== *)
(** * The classifier on any value *)
(* ===================================================================== *)

Section AnyValue.

Local Abbreviation element :=
  (fun x : value => match x with
                    | Prim Js.Undefined | Prim Js.Null => Returned EmptyString
                    | _ => String_value x
                    end).

Lemma join_results_cons (r : result string) (rest : list (result string)) :
  (exists s, join_results (r :: rest) = Returned s)
  <-> (exists a, r = Returned a) /\ (exists t, join_results rest = Returned t).
Proof.
  destruct r as [a | err]; cbn [join_results].
  - destruct rest as [|r' rest']; [split; eauto |].
    destruct (join_results (r' :: rest')) as [t | err]; split; eauto.
    intros [_ [t T]]. discriminate T.
  - split; [intros [s S]; discriminate S | intros [[a A] _]; discriminate A].
Qed.

Lemma element_returns (x : value) :
  (exists s, element x = Returned s) <-> (exists s, String_value x = Returned s).
Proof. destruct x as [[| | | |]| | | | |]; simpl; split; eauto. Qed.

(** [String] returns exactly on the values that are [stringable]. *)
Lemma String_value_returns (v : value) :
  stringable v = true <-> exists s, String_value v = Returned s.
Proof.
  induction v as [p | name fields | fields | items IH | [p | err] |] using value_induction;
    cbn [stringable String_value]; try (split; eauto; fail).
  - induction IH as [|x rest Hx _ IHrest]; [split; eauto |].
    cbn [forallb List.map]. rewrite andb_true_iff, join_results_cons, IHrest.
    now rewrite (element_returns x), Hx.
  - split; [discriminate | intros [s S]; discriminate S].
  - split; [discriminate | intros [s S]; discriminate S].
Qed.

Lemma String_value_throws (v : value) :
  stringable v = false <-> exists thrown, String_value v = Thrown thrown.
Proof.
  pose proof (String_value_returns v) as R.
  destruct (String_value v) as [s | thrown], (stringable v).
  - split; [discriminate | intros [thrown T]; discriminate T].
  - assert (F : false = true) by (apply R; eauto). discriminate F.
  - destruct (proj1 R eq_refl) as [s S]. discriminate S.
  - split; eauto.
Qed.

(** On the values the commands catch, [String] and the classifier are the
    ones above, and return. *)
Lemma String_value_caught (err : unknown) :
  String_value (as_value err) = Returned (String_unknown err).
Proof.
  destruct err as [p | [|] fields]; try reflexivity.
  simpl. unfold Error_toString. simpl. now destruct (Js.truthy (message fields)).
Qed.

Lemma friendlyError_value_caught (err : unknown) :
  friendlyError_value (as_value err) = Returned (friendlyError err).
Proof. destruct err as [p | [|] fields]; reflexivity. Qed.

End AnyValue.

(** C10 does not hold as it is stated: an object without a prototype is not
    an instance of [Error], and the classifier throws on it. *)
Lemma friendlyError_is_not_total :
  instanceof_Error NullPrototype = false
  /\ friendlyError_value NullPrototype = Thrown cannot_convert
  /\ ~ (exists text, friendlyError_value NullPrototype = Returned text).
Proof. split; [reflexivity | split; [reflexivity |]]. intros [text T]. discriminate T. Qed.

(** C10, as the code has it. A value that is not an instance of [Error] is
    not classified: the classifier does with it what [String] does. It
    returns the string form exactly when nothing in the value stops
    [String], and throws what [String] throws otherwise. *)
Theorem friendlyError_of_non_error (err : value) :
  instanceof_Error err = false ->
  friendlyError_value err = String_value err
  /\ (stringable err = true <-> exists text, friendlyError_value err = Returned text)
  /\ (stringable err = false <-> exists thrown, friendlyError_value err = Thrown thrown).
Proof.
  intros N.
  assert (E : friendlyError_value err = String_value err)
    by (destruct err; try reflexivity; discriminate N).
  rewrite E. split; [reflexivity |].
  split; [apply String_value_returns | apply String_value_throws].
Qed.

Lemma friendlyError_of_non_error_witness :
  let gone := {| message := "gone"; status := Some (Js.Int 404); response := None |} in
  let boom := Object true {| message := "boom"; status := None; response := None |} in
  friendlyError_value (Prim (Js.Str "something went wrong"))
  = Returned "something went wrong"
  /\ friendlyError_value (PlainObject gone) = Returned "[object Object]"
  /\ friendlyError_value
       (Array [Prim (Js.Num (Js.Int 1)); Prim Js.Null; Array [PlainObject gone];
               OwnToString (Returned (Js.Str "two"))])
     = Returned "1,,[object Object],two"
  /\ (exists thrown,
         friendlyError_value (Array [Prim (Js.Bool true); OwnToString (Thrown boom)])
         = Thrown thrown).
Proof.
  intros gone boom.
  split; [| split; [| split]].
  - exact (proj1 (friendlyError_of_non_error (Prim (Js.Str "something went wrong"))
                    eq_refl)).
  - exact (proj1 (friendlyError_of_non_error (PlainObject gone) eq_refl)).
  - exact (proj1 (friendlyError_of_non_error
                    (Array [Prim (Js.Num (Js.Int 1)); Prim Js.Null;
                            Array [PlainObject gone];
                            OwnToString (Returned (Js.Str "two"))])
                    eq_refl)).
  - exact (proj1 (proj2 (proj2 (friendlyError_of_non_error
                                  (Array [Prim (Js.Bool true); OwnToString (Thrown boom)])
                                  eq_refl)))
             eq_refl).
Defined.

(* ===================================================================== *)
(** * The cache store *)
(* ===================================================================== *)

Section AnyStore.
Context {W V : Type} `{!Conf W V}.

(** Whatever the backing store does, [cacheGet] returns. *)
Lemma cacheGet_returns (key : string) (w : W) :
  exists hit w', cacheGet key w = (Returned hit, w').
Proof.
  unfold cacheGet, try_catch, bind, ret.
  destruct (store_get key w) as [[[entry|]|err] w1]; eauto.
  destruct (Date_now w1) as [[now|err] w2]; eauto.
  destruct (now - ts entry >? TTL_MS); eauto.
  destruct (store_delete key w2) as [[[]|err] w3]; eauto.
Qed.

(** A read that throws is a miss. *)
Lemma cacheGet_degrades (key : string) (w w' : W) (err : unknown) :
  store_get key w = (Thrown err, w') -> cacheGet key w = (Returned None, w').
Proof. intros E. unfold cacheGet, try_catch, bind, ret. now rewrite E. Qed.

(** Whatever the backing store does, [cacheSet] returns. *)
Lemma cacheSet_returns (key : string) (v : V) (w : W) :
  exists w', cacheSet key v w = (Returned tt, w').
Proof.
  unfold cacheSet, try_catch, bind, ret.
  destruct (Date_now w) as [[now|err] w1]; eauto.
  destruct (store_set key _ w1) as [[[]|err] w2]; eauto.
Qed.

(** A write that throws leaves [cacheSet] returning as if nothing happened. *)
Lemma cacheSet_degrades (key : string) (v : V) (w w1 w2 : W) (now : Z) (err : unknown) :
  Date_now w = (Returned now, w1) ->
  store_set key {| data := v; ts := now |} w1 = (Thrown err, w2) ->
  cacheSet key v w = (Returned tt, w2).
Proof. intros N E. unfold cacheSet, try_catch, bind, ret. now rewrite N, E. Qed.

End AnyStore.

Section MockStore.
Context {V : Type}.
Implicit Types (w : MockWorld V) (v : V) (key : string).

Lemma cacheSet_mock key v w :
  writable w = true ->
  cacheSet key v w =
    (Returned tt,
     {| clock := clock w;
        entries := <[key := {| data := v; ts := clock w |}]> (entries w);
        writable := true |}).
Proof.
  intros H. unfold cacheSet, try_catch, bind, ret. simpl.
  unfold mock_write. now rewrite H.
Qed.

Lemma cacheGet_mock_absent key w :
  entries w !! key = None -> cacheGet key w = (Returned None, w).
Proof.
  intros H. unfold cacheGet, try_catch, bind, ret. simpl. now rewrite H.
Qed.

Lemma cacheGet_mock_fresh key w (entry : CacheEntry V) :
  entries w !! key = Some entry -> clock w - ts entry <= TTL_MS ->
  cacheGet key w = (Returned (Some (data entry)), w).
Proof.
  intros H T. unfold cacheGet, try_catch, bind, ret. simpl. rewrite H.
  destruct (Z.gtb_spec (clock w - ts entry) TTL_MS); [lia | reflexivity].
Qed.

Lemma cacheGet_mock_expired key w (entry : CacheEntry V) :
  writable w = true ->
  entries w !! key = Some entry -> clock w - ts entry > TTL_MS ->
  cacheGet key w =
    (Returned None,
     {| clock := clock w; entries := delete key (entries w); writable := true |}).
Proof.
  intros Hw H T. unfold cacheGet, try_catch, bind, ret. simpl. rewrite H.
  destruct (Z.gtb_spec (clock w - ts entry) TTL_MS); [| lia].
  unfold mock_write. now rewrite Hw.
Qed.

End MockStore.

(** C2. On the store of the test suite (a map behind [Conf], a clock that
    moves when told to): after [cacheSet k v] a [cacheGet k] more than
    [TTL_MS] (five minutes) later is a miss and removes the entry, so that
    another [cacheGet k], at any later time, is a miss again; a [cacheGet k]
    no more than [TTL_MS] later returns [v] and changes nothing; and
    [cacheGet] of a key that is not stored is a miss. *)
Theorem cacheGet_expiry {V : Type} (w : MockWorld V) (k absent : string) (v : V)
    (late again within : Z) :
  writable w = true ->
  late > TTL_MS -> within <= TTL_MS -> entries w !! absent = None ->
  let stored := snd (cacheSet k v w) in
  let expired := cacheGet k (advanceTimersByTime late stored) in
  fst expired = Returned None
  /\ entries (snd expired) !! k = None
  /\ fst (cacheGet k (advanceTimersByTime again (snd expired))) = Returned None
  /\ cacheGet k (advanceTimersByTime within stored)
     = (Returned (Some v), advanceTimersByTime within stored)
  /\ cacheGet absent w = (Returned None, w).
Proof.
  intros Hw Hl Hi Ha stored expired.
  assert (Es : stored = {| clock := clock w;
                           entries := <[k := {| data := v; ts := clock w |}]> (entries w);
                           writable := true |}).
  { unfold stored. now rewrite cacheSet_mock. }
  assert (Ee : expired =
               (Returned None,
                {| clock := clock w + late;
                   entries := delete k (<[k := {| data := v; ts := clock w |}]> (entries w));
                   writable := true |})).
  { unfold expired. rewrite Es.
    rewrite (cacheGet_mock_expired k _ {| data := v; ts := clock w |});
      [reflexivity | reflexivity | apply lookup_insert_eq | simpl; lia]. }
  rewrite Ee. simpl. repeat split.
  - apply lookup_delete_eq.
  - rewrite cacheGet_mock_absent; [reflexivity |]. simpl. apply lookup_delete_eq.
  - rewrite Es.
    rewrite (cacheGet_mock_fresh k _ {| data := v; ts := clock w |});
      [reflexivity | apply lookup_insert_eq | simpl; lia].
  - now apply cacheGet_mock_absent.
Qed.

Lemma cacheGet_expiry_witness :
  let w := {| clock := 1000; entries := ∅; writable := true |} in
  let stored := snd (cacheSet "expiring" [1; 2; 3] w) in
  let expired := cacheGet "expiring" (advanceTimersByTime (6 * 60 * 1000) stored) in
  fst expired = Returned None
  /\ entries (snd expired) !! "expiring" = None
  /\ fst (cacheGet "expiring" (advanceTimersByTime 0 (snd expired))) = Returned None
  /\ cacheGet "expiring" (advanceTimersByTime TTL_MS stored)
     = (Returned (Some [1; 2; 3]), advanceTimersByTime TTL_MS stored)
  /\ cacheGet "nonexistent" w = (Returned None, w).
Proof.
  intros w.
  exact (cacheGet_expiry w "expiring" "nonexistent" [1; 2; 3] (6 * 60 * 1000) 0 TTL_MS
           eq_refl eq_refl ltac:(discriminate) eq_refl).
Defined.

(** C7. On the store of the test suite, [cacheSet k v] followed by
    [cacheGet k] before more than [TTL_MS] has passed returns [v]. *)
Theorem cacheSet_cacheGet {V : Type} (w : MockWorld V) (k : string) (v : V) (elapsed : Z) :
  writable w = true -> elapsed <= TTL_MS ->
  fst (cacheGet k (advanceTimersByTime elapsed (snd (cacheSet k v w))))
  = Returned (Some v).
Proof.
  intros Hw He. rewrite cacheSet_mock by exact Hw.
  rewrite (cacheGet_mock_fresh k _ {| data := v; ts := clock w |});
    [reflexivity | apply lookup_insert_eq | simpl; lia].
Qed.

Lemma cacheSet_cacheGet_witness :
  fst (cacheGet "key1"
         (advanceTimersByTime 0
            (snd (cacheSet "key1" "world"
                    {| clock := 0; entries := ∅; writable := true |}))))
  = Returned (Some "world").
Proof.
  exact (cacheSet_cacheGet {| clock := 0; entries := ∅; writable := true |}
           "key1" "world" 0 eq_refl ltac:(discriminate)).
Defined.

(** C5. [cacheGet] and [cacheSet] return whatever the backing store does:
    on a store that cannot be written, reading an expired entry (whose
    removal throws) is a miss and writing is a no-op. [cacheClear] has no
    [try]: on the same store it throws what [store.clear()] threw. *)
Theorem cacheClear_throws :
  (forall W V (C : Conf W V) key (w : W), exists hit w', cacheGet key w = (Returned hit, w'))
  /\ (forall W V (C : Conf W V) key v (w : W), exists w', cacheSet key v w = (Returned tt, w'))
  /\ (let w : MockWorld nat :=
        {| clock := TTL_MS + 1;
           entries := {[ "k" := {| data := 5%nat; ts := 0 |} ]};
           writable := false |} in
      store_delete "k" w = (Thrown EACCES, w)
      /\ cacheGet "k" w = (Returned None, w)
      /\ cacheSet "k" 1%nat w = (Returned tt, w)
      /\ cacheClear w = (Thrown EACCES, w)).
Proof.
  split; [| split].
  - intros. apply cacheGet_returns.
  - intros. apply cacheSet_returns.
  - repeat split.
Qed.

(* ===================================================================== *)
(** * The pagination loop *)
(* ===================================================================== *)

Section PaginateFacts.
Context {W V Item : Type} `{!Conf W V}.
Variable L : Listing W V Item.
Variable allPages : bool.
Variable perPage : Js.number.
Hypothesis quiet : heading_quiet L.

Local Abbreviation Proc := (Proc W V Item).
Local Abbreviation trace := (list (event V Item)).
Implicit Types (p : Proc) (page : Js.number) (v : V) (evs : trace) (o : outcome).

Lemma after_after p w w' evs evs' :
  after (after p w evs) w' evs' = after p w' (evs ++ evs').
Proof. unfold after. simpl. now rewrite app_assoc. Qed.

Lemma show_after page v p :
  show L allPages perPage page v p =
    (Returned (verdict_of L allPages page v),
     after p (world p) (heading L page v ++ rows_of L perPage page v)).
Proof.
  unfold show, verdict_of, rows_of, after, bind, emit_all, emit, ret.
  destruct (items_of L v); simpl; rewrite <- ?app_assoc; [reflexivity |].
  destruct (negb (hasMore_of L page v) || negb allPages); reflexivity.
Qed.

(** One pass through the loop body: the API call failed, or a page came from
    the cache, or a page came from the API. *)
Lemma iteration_cases page p :
  (exists err w,
      iteration L allPages perPage page p =
        (Returned Return,
         after p w [SpinnerStart (spinner_text L page); Fetch page (Thrown err);
                    SpinnerFail "Failed"; PrintError (friendlyError err)]))
  \/ (exists v w,
        iteration L allPages perPage page p =
          (Returned (verdict_of L allPages page v),
           after p w (heading L page v ++ rows_of L perPage page v)))
  \/ (exists v w,
        iteration L allPages perPage page p =
          (Returned (verdict_of L allPages page v),
           after p w (SpinnerStart (spinner_text L page) :: Fetch page (Returned v)
                      :: SpinnerStop :: heading L page v ++ rows_of L perPage page v))).
Proof.
  unfold iteration, load, bind, lift, try_catch, call_api, emit, ret.
  destruct (cacheGet_returns (key_for L page) (world p)) as (hit & w1 & ->).
  destruct hit as [v|]; simpl.
  - right; left. exists v, w1. now rewrite show_after.
  - destruct (request L page w1) as [[v | err] w2]; simpl.
    + right; right. exists v.
      destruct (cacheSet_returns (key_for L page) v w2) as (w3 & ->).
      exists w3. rewrite show_after.
      unfold after. simpl. now rewrite <- !app_assoc.
    + left. exists err, w2.
      unfold after. simpl. now rewrite <- !app_assoc.
Qed.

(** The loop, one pass unfolded. *)
Lemma paginate_step answers page p :
  paginate L allPages perPage answers page p =
    match iteration L allPages perPage page p with
    | (Returned Continue, p1) =>
        let asked := after p1 (world p1) [AskLoadMore] in
        match answers with
        | [] => (Returned Suspended, asked)
        | true :: later => paginate L allPages perPage later (Js.incr page) asked
        | false :: _ => (Returned Done, asked)
        end
    | (Returned _, p1) => (Returned Done, p1)
    | (Thrown err, p1) => (Thrown err, p1)
    end.
Proof.
  destruct answers as [|[|] later]; simpl; unfold bind at 1;
    destruct (iteration L allPages perPage page p) as [[[| |]|err] p1]; reflexivity.
Qed.

(** One pass, when the page is not in the cache and the API call fails. *)
Lemma iteration_failed page p err w1 w2 :
  cacheGet (key_for L page) (world p) = (Returned None, w1) ->
  request L page w1 = (Thrown err, w2) ->
  iteration L allPages perPage page p =
    (Returned Return, after p w2 (failure_report L page err)).
Proof.
  intros E R.
  unfold iteration, load, bind, lift, try_catch, call_api, emit, ret.
  rewrite E. simpl. rewrite R. simpl.
  unfold after, failure_report. simpl. now rewrite <- !app_assoc.
Qed.

(** A failed call at the page the loop starts with ends it. *)
Lemma paginate_failed answers page p err w1 w2 :
  cacheGet (key_for L page) (world p) = (Returned None, w1) ->
  request L page w1 = (Thrown err, w2) ->
  paginate L allPages perPage answers page p =
    (Returned Done, after p w2 (failure_report L page err)).
Proof.
  intros E R. rewrite paginate_step.
  now rewrite (iteration_failed page p err w1 w2 E R).
Qed.

(** A loop that waits at the prompt goes on from there, at the next page,
    when the answer is yes. *)
Lemma paginate_resumes rest answers : forall page p p',
  paginate L allPages perPage answers page p = (Returned Suspended, p') ->
  paginate L allPages perPage (answers ++ true :: rest) page p =
    paginate L allPages perPage rest
      (Nat.iter (S (List.length answers)) Js.incr page) p'.
Proof.
  induction answers as [|answer later IH]; intros page p p' S;
    rewrite paginate_step in S;
    rewrite (paginate_step (_ ++ _)); cbn [app List.length];
    destruct (iteration L allPages perPage page p) as [[[| |]|err] p1];
    try discriminate; cbn zeta in *.
  - injection S as <-. reflexivity.
  - destruct answer; [| discriminate].
    rewrite (IH _ _ _ S). now rewrite <- !Nat.iter_succ_r.
Qed.

(** So a failed call ends the loop at whatever page it happens. *)
Lemma paginate_failed_later answers rest page p p' err w1 w2 :
  let reached := Nat.iter (S (List.length answers)) Js.incr page in
  paginate L allPages perPage answers page p = (Returned Suspended, p') ->
  cacheGet (key_for L reached) (world p') = (Returned None, w1) ->
  request L reached w1 = (Thrown err, w2) ->
  paginate L allPages perPage (answers ++ true :: rest) page p =
    (Returned Done, after p' w2 (failure_report L reached err)).
Proof.
  intros reached S E R.
  rewrite (paginate_resumes rest answers page p p' S).
  exact (paginate_failed rest reached p' err w1 w2 E R).
Qed.

Lemma orderly_quiet_app o (quiet_evs evs : trace) :
  forallb (fun e => negb (is_fetch e) && negb (is_prompt e)) quiet_evs = true ->
  orderly L allPages perPage o (quiet_evs ++ evs) <-> orderly L allPages perPage o evs.
Proof.
  induction quiet_evs as [|e es IH]; simpl; [tauto |].
  intros H. apply andb_true_iff in H as [He Hes].
  destruct e; simpl in He; try discriminate; now apply IH.
Qed.

Lemma rows_quiet page v :
  forallb (fun e => negb (is_fetch e) && negb (is_prompt e))
          (rows_of L perPage page v) = true.
Proof. unfold rows_of. now destruct (items_of L v). Qed.

Lemma orderly_page o page v evs :
  orderly L allPages perPage o
    (heading L page v ++ rows_of L perPage page v ++ evs)
  <-> orderly L allPages perPage o evs.
Proof.
  rewrite orderly_quiet_app by apply quiet.
  apply orderly_quiet_app, rows_quiet.
Qed.

(** One pass returns, and its output stays orderly under whatever follows. *)
Lemma iteration_orderly page p :
  exists c w evs,
    iteration L allPages perPage page p = (Returned c, after p w evs)
    /\ forall o tail,
         follows c o tail -> orderly L allPages perPage o tail ->
         orderly L allPages perPage o (evs ++ tail).
Proof.
  destruct (iteration_cases page p) as [(err & w & E) | [(v & w & E) | (v & w & E)]];
    rewrite E; do 3 eexists; (split; [reflexivity |]); intros o tail F T.
  - destruct F as [-> ->]. simpl. auto.
  - rewrite <- app_assoc. now apply orderly_page.
  - simpl. split.
    + exists tail. rewrite <- app_assoc. split; [reflexivity |]. exact F.
    + rewrite <- app_assoc. now apply orderly_page.
Qed.

(** Every run of the loop returns, extends the output, and is orderly. *)
Lemma paginate_orderly answers :
  forall page p, exists o w evs,
    paginate L allPages perPage answers page p = (Returned o, after p w evs)
    /\ orderly L allPages perPage o evs.
Proof.
  induction answers as [|answer later IH]; intros page p; rewrite paginate_step;
    destruct (iteration_orderly page p) as (c & w & evs & -> & K).
  - destruct c; cbn zeta; rewrite ?after_after; do 3 eexists;
      (split; [reflexivity |]).
    1,2: rewrite <- (app_nil_r evs); apply K; simpl; auto.
    apply K; simpl; eauto.
  - destruct c; cbn zeta.
    1,2: do 3 eexists; (split; [reflexivity |]);
         rewrite <- (app_nil_r evs); apply K; simpl; auto.
    destruct answer.
    + destruct (IH (Js.incr page)
                  (after (after p w evs) (world (after p w evs)) [AskLoadMore]))
        as (o & w' & evs' & -> & O).
      rewrite !after_after. do 3 eexists. split; [reflexivity |].
      apply K; simpl; eauto.
    + rewrite after_after. do 3 eexists. split; [reflexivity |].
      apply K; simpl; eauto.
Qed.

(** What [orderly] says at a given API call of the output. *)
Lemma orderly_at o evs : forall pre page r post,
  orderly L allPages perPage o evs ->
  evs = pre ++ Fetch page r :: post ->
  match r with
  | Thrown err =>
      post = [SpinnerFail "Failed"; PrintError (friendlyError err)] /\ o = Done
  | Returned v =>
      exists rest,
        post = SpinnerStop :: heading L page v ++ rows_of L perPage page v ++ rest
        /\ after_page L allPages o page v rest
  end.
Proof.
  intros pre. revert evs.
  induction pre as [|e pre IH]; intros evs page r post O ->; simpl in O.
  - destruct r; tauto.
  - destruct e as [ | pg [v|err] | | | | | | | | ]; try (eapply IH; eauto; fail).
    + destruct O as [_ O]. eapply IH; eauto.
    + destruct O as [O _]. destruct pre as [|? [|? [|? ?]]]; discriminate O.
Qed.

(** The same, for a run of the loop. *)
Lemma paginate_at answers page p pre pg r post :
  let run := paginate L allPages perPage answers page p in
  out (snd run) = out p ++ pre ++ Fetch pg r :: post ->
  exists o, fst run = Returned o /\
    match r with
    | Thrown err =>
        post = [SpinnerFail "Failed"; PrintError (friendlyError err)] /\ o = Done
    | Returned v =>
        exists rest,
          post = SpinnerStop :: heading L pg v ++ rows_of L perPage pg v ++ rest
          /\ after_page L allPages o pg v rest
    end.
Proof.
  intros run E. subst run.
  destruct (paginate_orderly answers page p) as (o & w & evs & R & O).
  rewrite R in E |- *. simpl in E. apply app_inv_head in E.
  exists o. split; [reflexivity |]. eapply orderly_at; eauto.
Qed.

End PaginateFacts.

(* ===================================================================== *)
(** * The commands *)
(* ===================================================================== *)

Section NumberFacts.

Lemma lt_not_strict_eq (a b : Js.number) : Js.lt a b = true -> Js.strict_eq a b = false.
Proof.
  destruct a as [|x], b as [|y]; simpl; try discriminate.
  intros H. apply Z.ltb_lt in H. apply Z.eqb_neq. lia.
Qed.

End NumberFacts.

Section RepoListFacts.
Context {W Repo : Type} `{!Conf W (list Repo), !ReposApi W Repo}.

Lemma repo_list_quiet username type sort limit :
  heading_quiet (repo_list (W:=W) (Repo:=Repo) username type sort limit).
Proof. intros page v. reflexivity. Qed.

End RepoListFacts.

Section SearchReposFacts.
Context {W Hit : Type} `{!Conf W (RepoSearchResult Hit), !SearchApi W Hit}.

Lemma search_repos_quiet query language stars sort limit start toLocaleString :
  heading_quiet
    (search_repos_listing (W:=W) (Hit:=Hit) query language stars sort limit start
       toLocaleString).
Proof. intros page v. simpl. now destruct (Js.strict_eq page start). Qed.

End SearchReposFacts.

(** The two scenarios the specification walks through: page size 30 with
    [--all-pages], a first page of 30 items. When the operator declines there
    has been one API call and one entry is stored; when the operator accepts
    and the second page has 12 items there have been two calls, two entries
    are stored, and the prompt was shown once. *)
Example scenario_operator_declines :
  let run :=
    repo_list_loop None "all" "updated" true (Js.Int 30) [false] (Js.Int 1)
      (fresh_session (fun _ => Returned (List.repeat 7%nat 30))) in
  fst run = Returned Done
  /\ List.length (List.filter is_fetch (out (snd run))) = 1%nat
  /\ size (entries (disk (world (snd run)))) = 1%nat.
Proof. vm_compute. auto. Qed.

Example scenario_operator_accepts :
  let remote page :=
    match page with
    | Js.Int 1 => Returned (List.repeat 7%nat 30)
    | _ => Returned (List.repeat 7%nat 12)
    end in
  let run :=
    repo_list_loop None "all" "updated" true (Js.Int 30) [true] (Js.Int 1)
      (fresh_session remote) in
  fst run = Returned Done
  /\ List.length (List.filter is_fetch (out (snd run))) = 2%nat
  /\ List.length (List.filter is_prompt (out (snd run))) = 1%nat
  /\ size (entries (disk (world (snd run)))) = 2%nat.
Proof. vm_compute. auto. Qed.

(** C4. In [repo list] and in [search repos] a failed call of the API is
    reported and ends the command, at whatever page it happens. When the
    page is not in the cache and the call for it fails, the run adds the
    spinner, the call, the failed spinner and [printError] with the
    classifier's message for the thrown value, and is over: so at the page
    the run starts with, and so at any page reached after the operator
    said yes at the prompts (the page numbers being safe integers). And
    whenever a call fails, what follows it in the output is that report and
    nothing more: no other call, no prompt, no second try. *)
Theorem fetch_failure_ends_the_command
    {W W' Repo Hit : Type}
    `{!Conf W (list Repo), !ReposApi W Repo,
      !Conf W' (RepoSearchResult Hit), !SearchApi W' Hit}
    (username : option string) (type sort : string)
    (query : string) (language stars : option string) (order : string)
    (start : Js.number) (toLocaleString : Js.number -> string)
    (allPages : bool) (limit : Js.number) (answers : list bool) (page : Js.number)
    (p : Proc W (list Repo) Repo) (s : Proc W' (RepoSearchResult Hit) Hit) :
  let listing := repo_list username type sort limit in
  let searching :=
    search_repos_listing query language stars order limit start toLocaleString in
  let listed more := repo_list_loop username type sort allPages limit more page p in
  let searched more :=
    search_repos_loop query language stars order allPages limit start toLocaleString
      more page s in
  let reached := Nat.iter (S (List.length answers)) Js.incr page in
  ((forall w1 w2 err,
       Js.safe_for 0 page = true ->
       cacheGet (key_for listing page) (world p) = (Returned None, w1) ->
       request listing page w1 = (Thrown err, w2) ->
       listed answers = (Returned Done, after p w2 (failure_report listing page err)))
   /\ (forall rest p' w1 w2 err,
         Js.safe_for (S (List.length answers)) page = true ->
         listed answers = (Returned Suspended, p') ->
         cacheGet (key_for listing reached) (world p') = (Returned None, w1) ->
         request listing reached w1 = (Thrown err, w2) ->
         listed (answers ++ true :: rest)
         = (Returned Done, after p' w2 (failure_report listing reached err)))
   /\ (forall pre pg err post,
         out (snd (listed answers)) = out p ++ pre ++ Fetch pg (Thrown err) :: post ->
         post = [SpinnerFail "Failed"; PrintError (friendlyError err)]
         /\ fst (listed answers) = Returned Done))
  /\ ((forall w1 w2 err,
          Js.safe_for 0 page = true ->
          cacheGet (key_for searching page) (world s) = (Returned None, w1) ->
          request searching page w1 = (Thrown err, w2) ->
          searched answers
          = (Returned Done, after s w2 (failure_report searching page err)))
      /\ (forall rest s' w1 w2 err,
            Js.safe_for (S (List.length answers)) page = true ->
            searched answers = (Returned Suspended, s') ->
            cacheGet (key_for searching reached) (world s') = (Returned None, w1) ->
            request searching reached w1 = (Thrown err, w2) ->
            searched (answers ++ true :: rest)
            = (Returned Done, after s' w2 (failure_report searching reached err)))
      /\ (forall pre pg err post,
            out (snd (searched answers))
            = out s ++ pre ++ Fetch pg (Thrown err) :: post ->
            post = [SpinnerFail "Failed"; PrintError (friendlyError err)]
            /\ fst (searched answers) = Returned Done)).
Proof.
  intros listing searching listed searched reached.
  split; (split; [| split]).
  - intros w1 w2 err _ E R. exact (paginate_failed _ _ _ _ _ _ _ _ _ E R).
  - intros rest p' w1 w2 err _ S E R.
    exact (paginate_failed_later _ _ _ _ _ _ _ _ _ _ _ S E R).
  - intros pre pg err post E.
    apply paginate_at in E as (o & R & -> & ->); [auto | apply repo_list_quiet].
  - intros w1 w2 err _ E R. exact (paginate_failed _ _ _ _ _ _ _ _ _ E R).
  - intros rest s' w1 w2 err _ S E R.
    exact (paginate_failed_later _ _ _ _ _ _ _ _ _ _ _ S E R).
  - intros pre pg err post E.
    apply paginate_at in E as (o & R & -> & ->); [auto | apply search_repos_quiet].
Qed.

Lemma fetch_failure_ends_the_command_witness :
  let not_found :=
    Object true {| message := "Not Found"; status := Some (Js.Int 404);
                   response := None |} in
  let remote page :=
    match page with
    | Js.Int 1 => Returned [7%nat; 7%nat]
    | _ => Thrown not_found
    end in
  let listed :=
    repo_list_loop (Some "octo") "all" "updated" true (Js.Int 2) [true; true]
      (Js.Int 1) (fresh_session remote) in
  let searched :=
    search_repos_loop "cli" None None "stars" true (Js.Int 2) (Js.Int 1)
      Js.number_to_string [] (Js.Int 1)
      (fresh_session (V := RepoSearchResult nat) (Item := nat)
         (fun _ => Thrown not_found)) in
  (fst listed = Returned Done
   /\ out (snd listed) =
        [SpinnerStart "Fetching page 1…"; Fetch (Js.Int 1) (Returned [7%nat; 7%nat]);
         SpinnerStop; PrintTable [7%nat; 7%nat];
         PrintPageInfo (Js.Int 1) (Js.Int 2) (Js.Int 2); AskLoadMore;
         SpinnerStart "Fetching page 2…"; Fetch (Js.Int 2) (Thrown not_found);
         SpinnerFail "Failed";
         PrintError "Not found (404) — check the owner/repo name is correct."])
  /\ (fst searched = Returned Done
      /\ out (snd searched) =
           [SpinnerStart ("Searching repos: " +:+ dquote +:+ "cli" +:+ dquote +:+
                          " (page 1)…");
            Fetch (Js.Int 1) (Thrown not_found);
            SpinnerFail "Failed";
            PrintError "Not found (404) — check the owner/repo name is correct."]).
Proof.
  intros not_found remote listed searched.
  pose (p := fresh_session (V := list nat) (Item := nat) remote).
  pose (s := fresh_session (V := RepoSearchResult nat) (Item := nat)
               (fun _ => Thrown not_found)).
  pose (p' := snd (repo_list_loop (Some "octo") "all" "updated" true (Js.Int 2) []
                     (Js.Int 1) p)).
  destruct (fetch_failure_ends_the_command
              (W := Session (list nat)) (W' := Session (RepoSearchResult nat))
              (Some "octo") "all" "updated" "cli" None None "stars" (Js.Int 1)
              Js.number_to_string true (Js.Int 2) [] (Js.Int 1) p s)
    as [(_ & Later & _) (First & _ & _)].
  split.
  - specialize (Later [true] p' (world p') (world p') not_found).
    cbv zeta in Later.
    assert (S : repo_list_loop (Some "octo") "all" "updated" true (Js.Int 2) []
                  (Js.Int 1) p = (Returned Suspended, p'))
      by (vm_compute; reflexivity).
    assert (E : cacheGet
                  (key_for (repo_list (W := Session (list nat)) (Some "octo") "all"
                              "updated" (Js.Int 2))
                     (Nat.iter 1 Js.incr (Js.Int 1)))
                  (world p')
                = (Returned None, world p'))
      by (vm_compute; reflexivity).
    specialize (Later eq_refl S E eq_refl).
    change ([] ++ [true; true]) with [true; true] in Later.
    unfold listed. fold p. rewrite Later. split; [reflexivity | vm_compute; reflexivity].
  - specialize (First (world s) (world s) not_found).
    cbv zeta in First.
    assert (E : cacheGet
                  (key_for (search_repos_listing (W := Session (RepoSearchResult nat))
                              "cli" None None "stars" (Js.Int 2) (Js.Int 1)
                              Js.number_to_string)
                     (Js.Int 1))
                  (world s)
                = (Returned None, world s))
      by (vm_compute; reflexivity).
    specialize (First eq_refl E eq_refl).
    unfold searched. fold s. rewrite First. split; [reflexivity | vm_compute; reflexivity].
Defined.

(** C9. In [repo list], whenever the API returns a page with fewer items
    than the page size, [hasMore] is false and the command is over after
    showing the page, without a prompt and without another call, whether or
    not [--all-pages] is set. *)
Theorem short_page_ends_repo_list
    {W Repo : Type} `{!Conf W (list Repo), !ReposApi W Repo}
    (username : option string) (type sort : string) (allPages : bool)
    (limit : Js.number) (answers : list bool) (page : Js.number)
    (p : Proc W (list Repo) Repo)
    (pre : list (event (list Repo) Repo)) (pg : Js.number) (repos : list Repo)
    (post : list (event (list Repo) Repo)) :
  let listed := repo_list_loop username type sort allPages limit answers page p in
  out (snd listed) = out p ++ pre ++ Fetch pg (Returned repos) :: post ->
  Js.lt (Js.length repos) (repo_perPage limit) = true ->
  hasMore_of (repo_list username type sort limit) pg repos = false
  /\ fst listed = Returned Done
  /\ existsb is_prompt post = false
  /\ existsb is_fetch post = false.
Proof.
  intros listed E Short.
  assert (H : hasMore_of (repo_list username type sort limit) pg repos = false)
    by (cbn [hasMore_of repo_list]; now apply lt_not_strict_eq).
  apply paginate_at in E as (o & R & rest & -> & A); [| apply repo_list_quiet].
  unfold after_page, verdict_of in A. rewrite H in A. simpl in A.
  assert (rest = [] /\ o = Done) as [-> ->] by (destruct repos; exact A).
  repeat split; auto; unfold rows_of; simpl; destruct repos; reflexivity.
Qed.

Lemma short_page_ends_repo_list_witness :
  let remote page :=
    match page with
    | Js.Int 1 => Returned (List.repeat 7%nat 30)
    | _ => Returned (List.repeat 7%nat 5)
    end in
  let listed :=
    repo_list_loop None "all" "updated" true (Js.Int 30) [true; true]
      (Js.Int 1) (fresh_session remote) in
  fst listed = Returned Done
  /\ existsb is_prompt
       ([SpinnerStop; PrintTable (List.repeat 7%nat 5);
         PrintPageInfo (Js.Int 2) (Js.Int 5) (Js.Int 30)]
        : list (event (list nat) nat)) = false.
Proof.
  intros remote listed.
  assert (E : out (snd listed) =
              out (fresh_session (Item := nat) remote)
              ++ [SpinnerStart "Fetching page 1…";
                  Fetch (Js.Int 1) (Returned (List.repeat 7%nat 30));
                  SpinnerStop; PrintTable (List.repeat 7%nat 30);
                  PrintPageInfo (Js.Int 1) (Js.Int 30) (Js.Int 30); AskLoadMore;
                  SpinnerStart "Fetching page 2…"]
              ++ Fetch (Js.Int 2) (Returned (List.repeat 7%nat 5))
                 :: [SpinnerStop; PrintTable (List.repeat 7%nat 5);
                     PrintPageInfo (Js.Int 2) (Js.Int 5) (Js.Int 30)])
    by (vm_compute; reflexivity).
  assert (S : Js.lt (Js.length (List.repeat 7%nat 5)) (repo_perPage (Js.Int 30)) = true)
    by reflexivity.
  destruct (short_page_ends_repo_list
              (W := Session (list nat)) (Repo := nat)
              None "all" "updated" true (Js.Int 30) [true; true] (Js.Int 1)
              (fresh_session remote) _ _ _ _ E S) as (_ & D & P & _).
  split; [exact D | exact P].
Defined.

(** C1, where the code departs from the claim. [search repos] with
    [--all-pages], page size 30: the first page comes back with exactly 30
    items and a [total_count] of 30. The number of items equals the page
    size, yet [hasMore] is false, no prompt is shown and the command is
    over. *)
Lemma full_search_page_without_prompt :
  let result := {| total_count := Js.Int 30; items := List.repeat 7%nat 30 |} in
  let searched :=
    search_repos_loop "cli" None None "stars" true (Js.Int 30) (Js.Int 1)
      Js.number_to_string [true; true] (Js.Int 1)
      (fresh_session (fun _ => Returned result)) in
  Js.strict_eq (Js.length (items result)) (search_perPage (Js.Int 30)) = true
  /\ In (Fetch (Js.Int 1) (Returned result)) (out (snd searched))
  /\ hasMore_of (search_repos_listing (W := Session (RepoSearchResult nat))
                   "cli" None None "stars" (Js.Int 30) (Js.Int 1)
                   Js.number_to_string) (Js.Int 1) result = false
  /\ existsb is_prompt (out (snd searched)) = false
  /\ fst searched = Returned Done.
Proof.
  intros result searched.
  split; [reflexivity |]. split; [right; left; vm_compute; reflexivity |].
  split; [reflexivity |]. split; vm_compute; reflexivity.
Qed.

(** C1, as the code has it. Whenever the API returns a page that is not
    empty, the page is shown and then: in [repo list], [hasMore] is
    [items.length === perPage]; in [search repos], [hasMore] is
    [items.length === perPage && page * perPage < total_count]. If [hasMore]
    holds and [--all-pages] is set, the prompt comes next; otherwise nothing
    comes next and the command is over. *)
Theorem prompt_follows_hasMore
    {W W' Repo Hit : Type}
    `{!Conf W (list Repo), !ReposApi W Repo,
      !Conf W' (RepoSearchResult Hit), !SearchApi W' Hit}
    (username : option string) (type sort : string)
    (query : string) (language stars : option string) (order : string)
    (start : Js.number) (toLocaleString : Js.number -> string)
    (allPages : bool) (limit : Js.number) (answers : list bool) (page : Js.number)
    (p : Proc W (list Repo) Repo) (s : Proc W' (RepoSearchResult Hit) Hit) :
  let listed := repo_list_loop username type sort allPages limit answers page p in
  let searching :=
    search_repos_listing query language stars order limit start toLocaleString in
  let searched :=
    search_repos_loop query language stars order allPages limit start toLocaleString
      answers page s in
  (forall pre pg repos post,
      out (snd listed) = out p ++ pre ++ Fetch pg (Returned repos) :: post ->
      repos <> [] ->
      let hasMore := Js.strict_eq (Js.length repos) (repo_perPage limit) in
      exists rest,
        post = [SpinnerStop; PrintTable repos;
                PrintPageInfo pg (Js.length repos) (repo_perPage limit)] ++ rest
        /\ if hasMore && allPages then exists later, rest = AskLoadMore :: later
           else rest = [] /\ fst listed = Returned Done)
  /\ (forall pre pg result post,
        out (snd searched) = out s ++ pre ++ Fetch pg (Returned result) :: post ->
        items result <> [] ->
        let hasMore :=
          Js.strict_eq (Js.length (items result)) (search_perPage limit)
          && Js.lt (Js.mul pg (search_perPage limit)) (total_count result) in
        exists rest,
          post = SpinnerStop :: heading searching pg result
                 ++ [PrintTable (items result);
                     PrintPageInfo pg (Js.length (items result)) (search_perPage limit)]
                 ++ rest
          /\ if hasMore && allPages then exists later, rest = AskLoadMore :: later
             else rest = [] /\ fst searched = Returned Done).
Proof.
  intros listed searching searched. split.
  - intros pre pg repos post E N hasMore.
    apply paginate_at in E as (o & R & rest & -> & A); [| apply repo_list_quiet].
    exists rest. unfold rows_of, after_page, verdict_of in *. simpl in *.
    destruct repos as [|r repos]; [now destruct N |].
    split; [reflexivity |]. fold hasMore in A.
    destruct hasMore, allPages; simpl in *; auto;
      destruct A as [-> ->]; auto.
  - intros pre pg result post E N hasMore.
    apply paginate_at in E as (o & R & rest & -> & A); [| apply search_repos_quiet].
    exists rest. unfold rows_of, after_page, verdict_of in *.
    cbn [items_of hasMore_of search_repos_listing] in *.
    destruct (items result) as [|r hits] eqn:I; [now destruct N |].
    split; [reflexivity |]. fold hasMore in A.
    destruct hasMore, allPages; simpl in *; auto;
      destruct A as [-> ->]; auto.
Qed.

Lemma prompt_follows_hasMore_witness :
  let repos := List.repeat 7%nat 30 in
  let result := {| total_count := Js.Int 45; items := List.repeat 7%nat 30 |} in
  let listed :=
    repo_list_loop None "all" "updated" true (Js.Int 30) [] (Js.Int 1)
      (fresh_session (fun _ => Returned repos)) in
  let searching :=
    search_repos_listing (W := Session (RepoSearchResult nat))
      "cli" None None "stars" (Js.Int 30) (Js.Int 1) Js.number_to_string in
  let searched :=
    search_repos_loop "cli" None None "stars" true (Js.Int 30) (Js.Int 1)
      Js.number_to_string [] (Js.Int 1) (fresh_session (fun _ => Returned result)) in
  (exists rest,
      [SpinnerStop; PrintTable repos; PrintPageInfo (Js.Int 1) (Js.Int 30) (Js.Int 30);
       AskLoadMore]
      = [SpinnerStop; PrintTable repos;
         PrintPageInfo (Js.Int 1) (Js.length repos) (repo_perPage (Js.Int 30))] ++ rest
      /\ exists later, rest = @AskLoadMore (list nat) nat :: later)
  /\ (exists rest,
        drop 2 (out (snd searched))
        = SpinnerStop :: heading searching (Js.Int 1) result
          ++ [PrintTable (items result);
              PrintPageInfo (Js.Int 1) (Js.length (items result))
                (search_perPage (Js.Int 30))]
          ++ rest
        /\ exists later, rest = AskLoadMore :: later)
  /\ fst listed = Returned Suspended
  /\ fst searched = Returned Suspended.
Proof.
  intros repos result listed searching searched.
  pose proof (prompt_follows_hasMore
                (W := Session (list nat)) (W' := Session (RepoSearchResult nat))
                None "all" "updated" "cli" None None "stars" (Js.Int 1)
                Js.number_to_string true (Js.Int 30) [] (Js.Int 1)
                (fresh_session (fun _ => Returned repos))
                (fresh_session (fun _ => Returned result))) as [Listing Searching].
  split; [| split; [| split; reflexivity]].
  - refine (Listing [SpinnerStart "Fetching page 1…"] (Js.Int 1) repos
              [SpinnerStop; PrintTable repos;
               PrintPageInfo (Js.Int 1) (Js.Int 30) (Js.Int 30); AskLoadMore] _ _).
    + vm_compute; reflexivity.
    + discriminate.
  - refine (Searching (take 1 (out (snd searched))) (Js.Int 1) result
              (drop 2 (out (snd searched))) _ _).
    + vm_compute; reflexivity.
    + discriminate.
Defined.

(* ===================================================================== *)
(** * More about the cache store *)
(* ===================================================================== *)

Section MoreAnyStore.
Context {W V : Type} `{!Conf W V, !Nullable V}.

Lemma isCached_returns (key : string) (w : W) :
  exists hit w', isCached key w = (Returned hit, w').
Proof.
  unfold isCached, bind, ret.
  destruct (cacheGet_returns key w) as (hit & w' & ->). eauto.
Qed.

End MoreAnyStore.

Section MoreMockStore.
Context {V : Type}.
Implicit Types (w : MockWorld V) (v : V) (key : string).

Lemma isCached_mock `{!Nullable V} key w hit w' :
  cacheGet key w = (Returned hit, w') ->
  isCached key w
  = (Returned (match hit with Some v => negb (is_null v) | None => false end), w').
Proof. intros E. unfold isCached, bind, ret. now rewrite E. Qed.

Lemma cacheSet_readonly key v w :
  writable w = false -> cacheSet key v w = (Returned tt, w).
Proof.
  intros H. unfold cacheSet, try_catch, bind, ret. simpl.
  unfold mock_write. now rewrite H.
Qed.

Lemma cacheGet_readonly key w :
  writable w = false -> exists hit, cacheGet key w = (Returned hit, w).
Proof.
  intros H. unfold cacheGet, try_catch, bind, ret. simpl.
  destruct (entries w !! key) as [entry|]; [| eauto].
  destruct (clock w - ts entry >? TTL_MS); [| eauto].
  unfold mock_write. rewrite H. eauto.
Qed.

End MoreMockStore.

(** X1. [isCached] never throws, whatever the store does. On the store of
    the test suite: after [cacheSet k v] it is true unless [v] is [null]
    (a stored [null] is what [cacheGet] returns, and reads as a miss), and
    changes nothing, until more than [TTL_MS] has passed; after that it is
    false and the question itself removes the entry; for a key that is not
    stored it is false. *)
Theorem isCached_follows_the_entry {V : Type} `{!Nullable V}
    (w : MockWorld V) (k absent : string) (v : V) (within late : Z) :
  writable w = true -> within <= TTL_MS -> late > TTL_MS ->
  entries w !! absent = None ->
  let stored := snd (cacheSet k v w) in
  (forall W' V' (C : Conf W' V') (N : Nullable V') key (w' : W'),
      exists hit w'', isCached key w' = (Returned hit, w''))
  /\ isCached k (advanceTimersByTime within stored)
     = (Returned (negb (is_null v)), advanceTimersByTime within stored)
  /\ fst (isCached k (advanceTimersByTime late stored)) = Returned false
  /\ entries (snd (isCached k (advanceTimersByTime late stored))) !! k = None
  /\ isCached absent w = (Returned false, w).
Proof.
  intros Hw Hi Hl Ha stored.
  assert (Es : stored = {| clock := clock w;
                           entries := <[k := {| data := v; ts := clock w |}]> (entries w);
                           writable := true |}).
  { unfold stored. now rewrite cacheSet_mock. }
  split; [intros; apply isCached_returns |].
  rewrite Es.
  assert (F : cacheGet k (advanceTimersByTime within
                 {| clock := clock w;
                    entries := <[k := {| data := v; ts := clock w |}]> (entries w);
                    writable := true |})
              = (Returned (Some v), advanceTimersByTime within
                 {| clock := clock w;
                    entries := <[k := {| data := v; ts := clock w |}]> (entries w);
                    writable := true |})).
  { rewrite (cacheGet_mock_fresh k _ {| data := v; ts := clock w |});
      [reflexivity | apply lookup_insert_eq | simpl; lia]. }
  assert (X : cacheGet k (advanceTimersByTime late
                 {| clock := clock w;
                    entries := <[k := {| data := v; ts := clock w |}]> (entries w);
                    writable := true |})
              = (Returned None,
                 {| clock := clock w + late;
                    entries := delete k (<[k := {| data := v; ts := clock w |}]> (entries w));
                    writable := true |})).
  { rewrite (cacheGet_mock_expired k _ {| data := v; ts := clock w |});
      [reflexivity | reflexivity | apply lookup_insert_eq | simpl; lia]. }
  rewrite (isCached_mock _ _ _ _ F), (isCached_mock _ _ _ _ X).
  rewrite (isCached_mock _ _ _ _ (cacheGet_mock_absent absent w Ha)).
  repeat split. simpl. apply lookup_delete_eq.
Qed.

Lemma isCached_follows_the_entry_witness :
  let w := {| clock := 0; entries := ∅; writable := true |} in
  let stored := snd (cacheSet "fresh" (Js.Str "data") w) in
  let nothing := snd (cacheSet "fresh" Js.Null w) in
  isCached "fresh" (advanceTimersByTime 1000 stored)
  = (Returned true, advanceTimersByTime 1000 stored)
  /\ fst (isCached "fresh" (advanceTimersByTime (TTL_MS + 1) stored)) = Returned false
  /\ isCached "missing" w = (Returned false, w)
  /\ isCached "fresh" (advanceTimersByTime 1000 nothing)
     = (Returned false, advanceTimersByTime 1000 nothing).
Proof.
  intros w stored nothing.
  pose proof (isCached_follows_the_entry w "fresh" "missing" (Js.Str "data") 1000
                (TTL_MS + 1) eq_refl ltac:(discriminate) eq_refl eq_refl)
    as (_ & A & B & _ & D).
  pose proof (isCached_follows_the_entry w "fresh" "missing" Js.Null 1000
                (TTL_MS + 1) eq_refl ltac:(discriminate) eq_refl eq_refl)
    as (_ & N & _).
  split; [exact A | split; [exact B | split; [exact D | exact N]]].
Defined.

(** X2. On the store of the test suite the last write wins, for the value
    and for the age: after [cacheSet k v1], any time later [cacheSet k v2],
    a [cacheGet k] no more than [TTL_MS] after the second write returns
    [v2], however old the first entry was. A write to [k] does not change
    what [cacheGet] returns for another key. *)
Theorem cacheSet_last_write_wins {V : Type} (w : MockWorld V) (k other : string)
    (v1 v2 : V) (gap elapsed : Z) :
  writable w = true -> elapsed <= TTL_MS -> k <> other ->
  let first := snd (cacheSet k v1 w) in
  let second := snd (cacheSet k v2 (advanceTimersByTime gap first)) in
  fst (cacheGet k (advanceTimersByTime elapsed second)) = Returned (Some v2)
  /\ fst (cacheGet other first) = fst (cacheGet other w).
Proof.
  intros Hw He Hk first second. subst first second.
  rewrite (cacheSet_mock k v1 w Hw).
  rewrite cacheSet_mock by reflexivity. split.
  - rewrite (cacheGet_mock_fresh k _ {| data := v2; ts := clock w + gap |});
      [reflexivity | apply lookup_insert_eq | simpl; lia].
  - destruct (entries w !! other) as [entry|] eqn:L.
    + destruct (Z_le_gt_dec (clock w - ts entry) TTL_MS) as [Fresh | Old].
      * rewrite !(cacheGet_mock_fresh other _ entry);
          [reflexivity | exact L | exact Fresh
           | simpl; rewrite lookup_insert_ne by exact Hk; exact L | exact Fresh].
      * rewrite !(cacheGet_mock_expired other _ entry);
          [reflexivity | exact Hw | exact L | exact Old | reflexivity
           | simpl; rewrite lookup_insert_ne by exact Hk; exact L | exact Old].
    + rewrite !cacheGet_mock_absent;
        [reflexivity | exact L | simpl; rewrite lookup_insert_ne by exact Hk; exact L].
Qed.

Lemma cacheSet_last_write_wins_witness :
  let w := {| clock := 0; entries := ∅; writable := true |} in
  let first := snd (cacheSet "k" 1%nat w) in
  let second := snd (cacheSet "k" 2%nat (advanceTimersByTime (2 * TTL_MS) first)) in
  fst (cacheGet "k" (advanceTimersByTime TTL_MS second)) = Returned (Some 2%nat)
  /\ fst (cacheGet "other" first) = fst (cacheGet "other" w).
Proof.
  intros w.
  exact (cacheSet_last_write_wins w "k" "other" 1%nat 2%nat (2 * TTL_MS) TTL_MS
           eq_refl ltac:(discriminate) ltac:(discriminate)).
Defined.

(** X3. On the store of the test suite [cacheClear] returns and leaves
    nothing behind: afterwards [cacheGet] is a miss for every key, at any
    time, and finds nothing to remove. *)
Theorem cacheClear_empties_the_store {V : Type} (w : MockWorld V) (k : string)
    (elapsed : Z) :
  writable w = true ->
  let cleared := cacheClear w in
  fst cleared = Returned tt
  /\ cacheGet k (advanceTimersByTime elapsed (snd cleared))
     = (Returned None, advanceTimersByTime elapsed (snd cleared)).
Proof.
  intros Hw cleared. subst cleared.
  unfold cacheClear. simpl. unfold mock_write. rewrite Hw. simpl.
  split; [reflexivity |]. apply cacheGet_mock_absent. simpl. apply lookup_empty.
Qed.

Lemma cacheClear_empties_the_store_witness :
  let w := snd (cacheSet "b" 2%nat
                  (snd (cacheSet "a" 1%nat
                          {| clock := 0; entries := ∅; writable := true |}))) in
  fst (cacheGet "a" w) = Returned (Some 1%nat)
  /\ fst (cacheGet "a" (advanceTimersByTime 0 (snd (cacheClear w)))) = Returned None.
Proof.
  intros w. split; [reflexivity |].
  pose proof (cacheClear_empties_the_store w "a" 0 eq_refl) as [_ E].
  now rewrite E.
Defined.

(** X4. A store that cannot be written is never changed and never makes
    the callers fail: [cacheSet] returns and stores nothing, [cacheGet]
    returns and leaves every entry in place; an expired entry is then
    reported as a miss each time it is asked for. *)
Theorem readonly_store_is_left_alone {V : Type} (w : MockWorld V) (k : string) (v : V)
    (entry : CacheEntry V) :
  writable w = false ->
  entries w !! k = Some entry -> clock w - ts entry > TTL_MS ->
  (forall key v', cacheSet key v' w = (Returned tt, w))
  /\ (forall key, exists hit, cacheGet key w = (Returned hit, w))
  /\ cacheGet k w = (Returned None, w)
  /\ cacheGet k (snd (cacheGet k w)) = (Returned None, w).
Proof.
  intros Hw He Hx.
  assert (G : cacheGet k w = (Returned None, w)).
  { unfold cacheGet, try_catch, bind, ret. simpl. rewrite He.
    destruct (Z.gtb_spec (clock w - ts entry) TTL_MS); [| lia].
    unfold mock_write. now rewrite Hw. }
  split; [intros; now apply cacheSet_readonly |].
  split; [intros; now apply cacheGet_readonly |].
  split; [exact G |]. rewrite G. exact G.
Qed.

Lemma readonly_store_is_left_alone_witness :
  let w : MockWorld nat :=
    {| clock := TTL_MS + 1;
       entries := {[ "k" := {| data := 5%nat; ts := 0 |} ]};
       writable := false |} in
  cacheSet "k" 6%nat w = (Returned tt, w) /\ cacheGet "k" w = (Returned None, w).
Proof.
  intros w.
  pose proof (readonly_store_is_left_alone w "k" 6%nat {| data := 5%nat; ts := 0 |}
                eq_refl eq_refl eq_refl) as (S & _ & G & _).
  split; [apply S | exact G].
Defined.

(* ===================================================================== *)
(** * More about the key builder *)
(* ===================================================================== *)

(** X5. Keys that begin with different tags are different, when the tags
    have no colon in them, whatever comes after the tag: absent values and
    values with the separator inside included. The tags of the commands
    (["repo.list"], ["pr.list"], ["issue.list"], ["search.repos"]) are such
    tags, so no command reads a page another command stored. *)
Theorem tags_keep_keys_apart (tag1 tag2 : string) (rest1 rest2 : list Js.prim) :
  colon_free tag1 = true -> colon_free tag2 = true -> tag1 <> tag2 ->
  cacheKey (Js.Str tag1 :: rest1) <> cacheKey (Js.Str tag2 :: rest2).
Proof.
  intros C1 C2 Ne E.
  rewrite !cacheKey_cons_present in E by reflexivity. simpl in E.
  destruct (existsb present rest1), (existsb present rest2).
  - now destruct (split_at_colon _ _ _ _ C1 C2 E).
  - symmetry in E. now apply colon_free_no_colon in E.
  - now apply colon_free_no_colon in E.
  - contradiction.
Qed.

Lemma tags_keep_keys_apart_witness :
  cacheKey [Js.Str "repo.list"; Js.Str "pr.list::x"; Js.Num (Js.Int 1)]
  <> cacheKey [Js.Str "pr.list"; Js.Undefined; Js.Str "x"; Js.Num (Js.Int 1)].
Proof.
  exact (tags_keep_keys_apart "repo.list" "pr.list" _ _ eq_refl eq_refl
           ltac:(discriminate)).
Defined.

(* ===================================================================== *)
(** * More about the failure classifier *)
(* ===================================================================== *)

Section MoreClassifier.

Lemma append_empty_r (s : string) : s +:+ EmptyString = s.
Proof.
  induction s as [|c s IH]; [reflexivity |].
  change (String.String c (s +:+ EmptyString) = String.String c s). now rewrite IH.
Qed.

Lemma includes_refl (s : string) : Js.includes s s = true.
Proof. rewrite <- (append_empty_r s) at 1. apply includes_here. Qed.

Lemma status_is_unique (st : option Js.number) (m n : Z) :
  status_is st m = true -> m <> n -> status_is st n = false.
Proof.
  destruct st as [[|z]|]; simpl; try discriminate.
  intros E Ne. apply Z.eqb_eq in E. subst z. now apply Z.eqb_neq.
Qed.

(** The message for a status, when the status is the only thing looked at. *)
Lemma friendlyError_403_other (e : ErrorFields) :
  status_is (status e) 403 = true ->
  Js.includes (Js.toLowerCase (apiMsg_of e)) "rate limit" = false ->
  friendlyError (Object true e) =
    "Forbidden (403) — your token may be missing required scopes." +:+
    (if Js.truthy (apiMsg_of e) then " GitHub says: " +:+ apiMsg_of e else EmptyString).
Proof.
  intros S R. unfold friendlyError.
  rewrite (status_is_unique _ 403 401 S) by discriminate. now rewrite S, R.
Qed.

Lemma friendlyError_422 (e : ErrorFields) :
  status_is (status e) 422 = true ->
  friendlyError (Object true e) =
    "Validation error (422)" +:+
    (if Js.truthy (apiMsg_of e) then ": " +:+ apiMsg_of e else " — check your input.").
Proof.
  intros S. unfold friendlyError.
  rewrite (status_is_unique _ 422 401 S), (status_is_unique _ 422 403 S),
    (status_is_unique _ 422 404 S) by discriminate.
  now rewrite S.
Qed.

Lemma friendlyError_429 (e : ErrorFields) :
  status_is (status e) 429 = true ->
  friendlyError (Object true e) =
    "Secondary rate limit hit (429)." +:+
    (if header_truthy (retryAfter_of e)
     then " Retry after " +:+ default EmptyString (retryAfter_of e) +:+ "s."
     else EmptyString).
Proof.
  intros S. unfold friendlyError.
  rewrite (status_is_unique _ 429 401 S), (status_is_unique _ 429 403 S),
    (status_is_unique _ 429 404 S), (status_is_unique _ 429 422 S) by discriminate.
  now rewrite S.
Qed.

End MoreClassifier.

(** X6. The report for an [Error] is never blank when the error has a
    message: every status with a text of its own gives that text, and the
    fallback gives the provider's message or else the error's message. *)
Theorem friendlyError_never_blank (e : ErrorFields) :
  Js.truthy (message e) = true -> Js.truthy (friendlyError (Object true e)) = true.
Proof.
  intros M. unfold friendlyError.
  destruct (status_is (status e) 401); [reflexivity |].
  destruct (status_is (status e) 403).
  { destruct (Js.includes _ _); reflexivity. }
  destruct (status_is (status e) 404); [reflexivity |].
  destruct (status_is (status e) 422); [reflexivity |].
  destruct (status_is (status e) 429); [reflexivity |].
  destruct (status_is (status e) 451); [reflexivity |].
  destruct (Js.truthy (apiMsg_of e)) eqn:A; [exact A | exact M].
Qed.

Lemma friendlyError_never_blank_witness :
  Js.truthy
    (friendlyError
       (Object true {| message := "network timeout"; status := None; response := None |}))
  = true.
Proof.
  exact (friendlyError_never_blank
           {| message := "network timeout"; status := None; response := None |} eq_refl).
Defined.

(** X7. The statuses the classifier answers with the provider's own words
    added. Status 403 without a mention of a rate limit: the message speaks
    of scopes and carries the provider's message. Status 422: the message
    carries the provider's message. Status 429: the message carries the
    value of the [retry-after] header. *)
Theorem friendlyError_carries_provider_text (e : ErrorFields) (provider seconds : string) :
  apiMsg_of e = provider -> Js.truthy provider = true ->
  retryAfter_of e = Some seconds -> Js.truthy seconds = true ->
  (status e = Some (Js.Int 403) ->
   Js.includes (Js.toLowerCase provider) "rate limit" = false ->
   Js.includes (friendlyError (Object true e)) "scopes" = true
   /\ Js.includes (friendlyError (Object true e)) provider = true)
  /\ (status e = Some (Js.Int 422) ->
      Js.includes (friendlyError (Object true e)) provider = true)
  /\ (status e = Some (Js.Int 429) ->
      Js.includes (friendlyError (Object true e)) seconds = true).
Proof.
  intros A TA R TR. split; [| split].
  - intros S L. rewrite friendlyError_403_other; [| now rewrite S | now rewrite A].
    rewrite A, TA. split; [reflexivity |].
    apply includes_skip, includes_skip, includes_refl.
  - intros S. rewrite friendlyError_422 by now rewrite S.
    rewrite A, TA. apply includes_skip, includes_skip, includes_refl.
  - intros S. rewrite friendlyError_429 by now rewrite S.
    rewrite R. simpl header_truthy. rewrite TR. simpl default.
    apply includes_skip, includes_skip, includes_here.
Qed.

Lemma friendlyError_carries_provider_text_witness :
  let failure st :=
    {| message := "HttpError"; status := Some (Js.Int st);
       response := Some {| response_data := Some {| data_message := Some "Validation Failed" |};
                           response_headers := Some {[ "retry-after" := "60" ]} |} |} in
  Js.includes (friendlyError (Object true (failure 403))) "Validation Failed" = true
  /\ Js.includes (friendlyError (Object true (failure 422))) "Validation Failed" = true
  /\ Js.includes (friendlyError (Object true (failure 429))) "60" = true.
Proof.
  intros failure. split; [| split].
  - exact (proj2 (proj1 (friendlyError_carries_provider_text (failure 403)
                           "Validation Failed" "60" eq_refl eq_refl eq_refl eq_refl)
                    eq_refl eq_refl)).
  - exact (proj1 (proj2 (friendlyError_carries_provider_text (failure 422)
                           "Validation Failed" "60" eq_refl eq_refl eq_refl eq_refl))
             eq_refl).
  - exact (proj2 (proj2 (friendlyError_carries_provider_text (failure 429)
                           "Validation Failed" "60" eq_refl eq_refl eq_refl eq_refl))
             eq_refl).
Defined.

(* ===================================================================== *)
(** * [truncate], [stateBadge], [printError] *)
(* ===================================================================== *)

Section Display.

Lemma slice_to_front {A} (s : list A) (e : Z) :
  0 <= e <= Z.of_nat (List.length s) ->
  slice_to s (Js.Int e) = take (Z.to_nat e) s.
Proof.
  intros H. unfold slice_to. simpl.
  destruct (Z.ltb_spec e 0); [lia |]. now rewrite Z.min_l by lia.
Qed.

Lemma slice_to_drop_last {A} (s : list A) :
  slice_to s (Js.Int (0 - 1)) = take (List.length s - 1) s.
Proof.
  unfold slice_to. simpl to_integer. f_equal.
  change (0 - 1 <? 0) with true. cbn iota. lia.
Qed.

Lemma truncate_short (str : ustring) (max : Js.number) :
  Js.lt max (Js.length str) = false -> truncate str max = str.
Proof. intros H. destruct str; [reflexivity |]. unfold truncate. now rewrite H. Qed.

Lemma truncate_long (str : ustring) (m : Z) :
  0 <= m < Z.of_nat (List.length str) ->
  truncate str (Js.Int m) = slice_to str (Js.Int (m - 1)) ++ ellipsis.
Proof.
  intros H. destruct str as [|c str]; [simpl in H; lia |].
  unfold truncate, Js.lt, Js.length.
  destruct (Z.ltb_spec m (Z.of_nat (List.length (c :: str)))); [reflexivity | lia].
Qed.

Lemma upper_lower_ascii (c : ascii) : upper_ascii (Js.lower_ascii c) = upper_ascii c.
Proof. destruct c as [[] [] [] [] [] [] [] []]; reflexivity. Qed.

Lemma lower_lower_ascii (c : ascii) : Js.lower_ascii (Js.lower_ascii c) = Js.lower_ascii c.
Proof. destruct c as [[] [] [] [] [] [] [] []]; reflexivity. Qed.

Lemma upper_lower (s : string) : toUpperCase (Js.toLowerCase s) = toUpperCase s.
Proof. induction s as [|c s IH]; simpl; [reflexivity |]. now rewrite IH, upper_lower_ascii. Qed.

Lemma lower_lower (s : string) : Js.toLowerCase (Js.toLowerCase s) = Js.toLowerCase s.
Proof. induction s as [|c s IH]; simpl; [reflexivity |]. now rewrite IH, lower_lower_ascii. Qed.

Lemma number_to_string_truthy (n : Js.number) : Js.truthy (Js.number_to_string n) = true.
Proof.
  destruct n as [|z]; [reflexivity |]. unfold Js.number_to_string.
  destruct (Z.to_int z) as [d|d]; [| reflexivity].
  destruct d; reflexivity.
Qed.

End Display.

(** X8. [truncate] with a limit of at least one keeps the result within the
    limit, counted in UTF-16 code units; the string comes back unchanged
    exactly when it fits; otherwise the result is the first [max - 1] units
    of the string followed by the ellipsis, and is exactly [max] long. *)
Theorem truncate_keeps_the_limit (str : ustring) (max : Z) :
  1 <= max ->
  Z.of_nat (List.length (truncate str (Js.Int max))) <= max
  /\ (Z.of_nat (List.length str) <= max <-> truncate str (Js.Int max) = str)
  /\ (max < Z.of_nat (List.length str) ->
      truncate str (Js.Int max) = take (Z.to_nat (max - 1)) str ++ ellipsis
      /\ Z.of_nat (List.length (truncate str (Js.Int max))) = max).
Proof.
  intros M.
  assert (Long : max < Z.of_nat (List.length str) ->
                 truncate str (Js.Int max) = take (Z.to_nat (max - 1)) str ++ ellipsis
                 /\ Z.of_nat (List.length (truncate str (Js.Int max))) = max).
  { intros L. rewrite truncate_long, slice_to_front by lia.
    split; [reflexivity |]. rewrite length_app, length_take. simpl. lia. }
  assert (Short : Z.of_nat (List.length str) <= max -> truncate str (Js.Int max) = str).
  { intros S. apply truncate_short. simpl. apply Z.ltb_ge. exact S. }
  split; [| split; [split |]].
  - destruct (Z_le_gt_dec (Z.of_nat (List.length str)) max) as [S | L].
    + now rewrite Short.
    + destruct Long as [_ ->]; lia.
  - exact Short.
  - intros E. destruct (Z_le_gt_dec (Z.of_nat (List.length str)) max) as [S | L]; [exact S |].
    destruct Long as [_ Len]; [lia |]. rewrite E in Len. lia.
  - exact Long.
Qed.

Lemma truncate_keeps_the_limit_witness :
  truncate [104; 101; 108; 108; 111; 32; 119; 111; 114; 108; 100]%N (Js.Int 8)
  = [104; 101; 108; 108; 111; 32; 119; 8230]%N
  /\ truncate [49; 50; 51; 52; 53]%N (Js.Int 5) = [49; 50; 51; 52; 53]%N.
Proof.
  pose proof (truncate_keeps_the_limit
                [104; 101; 108; 108; 111; 32; 119; 111; 114; 108; 100]%N 8
                ltac:(discriminate)) as (_ & _ & L).
  pose proof (truncate_keeps_the_limit [49; 50; 51; 52; 53]%N 5
                ltac:(discriminate)) as (_ & S & _).
  split; [apply L; reflexivity | apply S; discriminate].
Defined.

(** X9. Truncating twice is truncating once, for any limit that is not
    negative. And whatever the limit (zero, negative and [NaN] included), a
    string that is not empty never comes back empty: with a limit below one
    the result is longer than the limit. *)
Theorem truncate_twice (str : ustring) (max : Z) :
  0 <= max ->
  truncate (truncate str (Js.Int max)) (Js.Int max) = truncate str (Js.Int max)
  /\ (forall limit, str <> [] -> truncate str limit <> []).
Proof.
  intros M. split.
  - destruct (Z_le_gt_dec (Z.of_nat (List.length str)) max) as [S | L].
    + assert (E : truncate str (Js.Int max) = str)
        by (apply truncate_short; simpl; apply Z.ltb_ge; exact S).
      rewrite E. exact E.
    + destruct (Z.eq_dec max 0) as [-> | N].
      * rewrite (truncate_long str 0) by lia.
        rewrite truncate_long by (rewrite length_app; simpl; lia).
        rewrite !slice_to_drop_last. f_equal.
        set (front := take (List.length str - 1) str).
        assert (F : List.length front = (List.length str - 1)%nat).
        { unfold front. rewrite length_take. lia. }
        rewrite length_app. simpl List.length.
        replace (List.length front + 1 - 1)%nat with (List.length front) by lia.
        now rewrite take_app_length.
      * apply truncate_short. simpl. apply Z.ltb_ge.
        rewrite truncate_long, slice_to_front by lia.
        rewrite length_app, length_take. simpl. lia.
  - intros limit Ne. destruct str as [|c str]; [now destruct Ne |].
    unfold truncate. destruct (Js.lt limit _); [| discriminate].
    intros E. apply app_eq_nil in E as [_ E]. discriminate E.
Qed.

Lemma truncate_twice_witness :
  truncate (truncate [104; 101; 108; 108; 111]%N (Js.Int 0)) (Js.Int 0)
  = [104; 101; 108; 108; 8230]%N.
Proof.
  pose proof (truncate_twice [104; 101; 108; 108; 111]%N 0 ltac:(discriminate)) as [E _].
  rewrite E. reflexivity.
Defined.

(** X10. For a state written in ASCII characters, the text of a badge is
    always the state in upper case between two spaces, in bold, whichever
    branch is taken: the state decides only the colour. The state is read
    without regard to letter case. *)
Theorem stateBadge_text (state : string) :
  ascii_only state = true ->
  styled_text (stateBadge state) = " " +:+ toUpperCase state +:+ " "
  /\ styled_bold (stateBadge state) = true
  /\ stateBadge (Js.toLowerCase state) = stateBadge state.
Proof.
  intros _.
  assert (U : forall word, Js.toLowerCase state = word ->
                           toUpperCase state = toUpperCase word).
  { intros word <-. symmetry. apply upper_lower. }
  split; [| split].
  - unfold stateBadge. rewrite upper_lower.
    do 5 (match goal with
          | |- context [if String.eqb ?a ?b then _ else _] =>
              destruct (String.eqb_spec a b) as [E | _];
              [rewrite (U _ E); reflexivity |]
          end).
    destruct (_ || _ || _); reflexivity.
  - unfold stateBadge.
    repeat (match goal with
            | |- context [String.eqb ?a ?b] => destruct (String.eqb a b)
            end); reflexivity.
  - unfold stateBadge. rewrite lower_lower, !upper_lower.
    do 5 (match goal with
          | |- context [if String.eqb ?a ?b then _ else _] =>
              destruct (String.eqb a b); [reflexivity |]
          end).
    destruct (_ || _ || _); reflexivity.
Qed.

Lemma stateBadge_text_witness :
  styled_text (stateBadge "In_Progress") = " IN_PROGRESS "
  /\ styled_color (stateBadge "In_Progress") = yellow
  /\ stateBadge "in_progress" = stateBadge "In_Progress"
  /\ styled_text (stateBadge "Draft") = " DRAFT ".
Proof.
  pose proof (stateBadge_text "In_Progress" eq_refl) as (A & _ & C).
  pose proof (stateBadge_text "Draft" eq_refl) as (D & _).
  split; [exact A | split; [reflexivity | split; [exact C | exact D]]].
Defined.

Lemma join_results_more (s : string) (r : result string) (rest : list (result string)) :
  join_results (Returned s :: r :: rest)
  = match join_results (r :: rest) with
    | Returned t => Returned (s +:+ "," +:+ t)
    | Thrown err => Thrown err
    end.
Proof. reflexivity. Qed.

Lemma join_results_blank (l : list (result string)) :
  join_results l = Returned EmptyString <-> l = [] \/ l = [Returned EmptyString].
Proof.
  destruct l as [|[s | err] [|r rest]].
  - simpl. tauto.
  - simpl. split; [intros [= ->]; auto |].
    intros [H | H]; [discriminate H | injection H as ->; reflexivity].
  - rewrite join_results_more. split; [| intros [H | H]; discriminate H].
    destruct (join_results (r :: rest)) as [t | err]; intros H; [| discriminate H].
    injection H as H. destruct s; discriminate H.
  - simpl. split; [discriminate | intros [H | H]; discriminate H].
  - simpl. split; [discriminate | intros [H | H]; discriminate H].
Qed.

Lemma String_prim_blank (p : Js.prim) :
  Js.String p = EmptyString <-> p = Js.Str EmptyString.
Proof.
  destruct p as [| | [|] | n | s]; simpl; split; try discriminate; try congruence.
  intros E. pose proof (number_to_string_truthy n) as T. rewrite E in T. discriminate T.
Qed.

(** On the values the commands catch the two [printError] are one. *)
Lemma printError_value_caught (msg : string) (err : unknown) :
  printError_value msg (as_value err) = Returned (printError msg err).
Proof. destruct err as [[| | b | n | s] | [|] fields]; reflexivity. Qed.

(** X11. [printError] for any value. It returns, having written the
    headline, exactly when the value is an [Error] or [String] can convert
    it; otherwise it throws what [String] throws and has written nothing.
    It writes no detail line exactly when the value is [undefined], [null],
    the empty string, an [Error] whose message is empty, an object whose
    [toString] returns the empty string, the empty array, or an array of
    one element that is [undefined], [null] or prints as the empty string. *)
Theorem printError_detail (msg : string) (err : value) :
  match printError_value msg err with
  | Returned report =>
      headline report = "✖  " +:+ msg
      /\ (detail report = None <->
          err = Prim Js.Undefined \/ err = Prim Js.Null
          \/ err = Prim (Js.Str EmptyString)
          \/ (exists name fields,
                 err = ErrorInstance name fields /\ message fields = EmptyString)
          \/ err = OwnToString (Returned (Js.Str EmptyString))
          \/ err = Array []
          \/ (exists x,
                 err = Array [x]
                 /\ (x = Prim Js.Undefined \/ x = Prim Js.Null
                     \/ String_value x = Returned EmptyString)))
  | Thrown thrown =>
      instanceof_Error err = false /\ String_value err = Thrown thrown
  end
  /\ ((exists report, printError_value msg err = Returned report)
      <-> instanceof_Error err = true \/ stringable err = true).
Proof.
  assert (D : forall text : string,
             (if Js.truthy text then Some (newline +:+ "   " +:+ text) else None) = None
             <-> text = EmptyString).
  { intros text. destruct text; simpl; split; congruence. }
  split.
  - unfold printError_value.
    destruct err as [p | name fields | fields | items | [p | thrown] |].
    + assert (T : forall q, q <> Js.Undefined -> q <> Js.Null ->
                  headline {| headline := "✖  " +:+ msg;
                              detail := if Js.truthy (Js.String q)
                                        then Some (newline +:+ "   " +:+ Js.String q)
                                        else None |} = "✖  " +:+ msg
                  /\ ((if Js.truthy (Js.String q)
                       then Some (newline +:+ "   " +:+ Js.String q) else None) = None
                      <-> Prim q = Prim Js.Undefined \/ Prim q = Prim Js.Null
                          \/ Prim q = Prim (Js.Str EmptyString)
                          \/ (exists name fields,
                                 Prim q = ErrorInstance name fields
                                 /\ message fields = EmptyString)
                          \/ Prim q = OwnToString (Returned (Js.Str EmptyString))
                          \/ Prim q = Array []
                          \/ (exists x,
                                 Prim q = Array [x]
                                 /\ (x = Prim Js.Undefined \/ x = Prim Js.Null
                                     \/ String_value x = Returned EmptyString)))).
      { intros q U N. split; [reflexivity |]. rewrite D, String_prim_blank.
        split; [intros ->; auto |].
        intros [H | [H | [H | [(? & ? & H & _) | [H | [H | (? & H & _)]]]]]];
          congruence. }
      destruct p as [| | b | n | s];
        [split; [reflexivity | simpl; tauto]
        | split; [reflexivity | simpl; tauto]
        | apply T; discriminate ..].
    + split; [reflexivity |]. cbn [detail]. rewrite D. split.
      * intros M. right; right; right; left. eauto.
      * intros [H | [H | [H | [(? & ? & H & M) | [H | [H | (? & H & _)]]]]]];
          try discriminate H.
        injection H as <- <-. exact M.
    + split; [reflexivity |]. cbn [String_value detail]. split; [discriminate |].
      intros [H | [H | [H | [(? & ? & H & _) | [H | [H | (? & H & _)]]]]]];
        discriminate H.
    + destruct (String_value (Array items)) as [text | thrown] eqn:S;
        [| split; [reflexivity | reflexivity]].
      split; [reflexivity |]. cbn [detail]. rewrite D. split.
      * intros ->. cbn [String_value] in S. apply join_results_blank in S.
        destruct items as [|x [|y rest]]; cbn [List.map] in S.
        -- auto 10.
        -- destruct S as [S | S]; [discriminate S |]. injection S as S.
           do 6 right. exists x. split; [reflexivity |].
           destruct x as [[| | b | n | s]| | | | |]; auto.
        -- destruct S as [S | S]; discriminate S.
      * intros [H | [H | [H | [(? & ? & H & _) | [H | [H | (x & H & X)]]]]]];
          try discriminate H.
        -- injection H as ->. cbn in S. congruence.
        -- injection H as ->. cbn [String_value List.map join_results] in S.
           destruct X as [-> | [-> | X]]; [congruence | congruence |].
           destruct x as [[| | b | n | s]| | | | |];
             try rewrite X in S; cbn in S; congruence.
    + split; [reflexivity |]. cbn [String_value detail]. rewrite D, String_prim_blank.
      split; [intros ->; auto 10 |].
      intros [H | [H | [H | [(? & ? & H & _) | [H | [H | (? & H & _)]]]]]];
        congruence.
    + split; reflexivity.
    + split; reflexivity.
  - unfold printError_value.
    destruct err as [[| | b | n | s] | name fields | fields | items | [p | thrown] |];
      try (split; eauto; fail).
    + pose proof (String_value_returns (Array items)) as R.
      destruct (String_value (Array items)) as [text | thrown].
      * split; [intros _; right; apply R; eauto | eauto].
      * split; [intros [report H]; discriminate H |].
        intros [H | H]; [discriminate H |]. apply R in H as [s H]. discriminate H.
    + split; [intros [report H]; discriminate H | intros [H | H]; discriminate H].
    + split; [intros [report H]; discriminate H | intros [H | H]; discriminate H].
Qed.

Lemma printError_detail_witness :
  printError_value "Failed" (Array [])
  = Returned {| headline := "✖  Failed"; detail := None |}
  /\ (exists report,
         printError_value "Failed"
           (Array [Prim (Js.Num (Js.Int 1)); Prim (Js.Num (Js.Int 2))])
         = Returned report
         /\ detail report <> None)
  /\ printError_value "Failed" NullPrototype = Thrown cannot_convert.
Proof.
  split; [| split].
  - pose proof (printError_detail "Failed" (Array [])) as [A _].
    destruct (printError_value "Failed" (Array [])) as [[h d] | thrown] eqn:E;
      [| discriminate E].
    destruct A as [H N]. cbn [headline detail] in H, N.
    rewrite H, (proj2 N) by auto 10. reflexivity.
  - pose proof (printError_detail "Failed"
                  (Array [Prim (Js.Num (Js.Int 1)); Prim (Js.Num (Js.Int 2))]))
      as [A R].
    destruct (proj2 R (or_intror eq_refl)) as [report E].
    rewrite E in A. exists report. split; [exact E |].
    intros N. apply A in N.
    destruct N as [H | [H | [H | [(? & ? & H & _) | [H | [H | (? & H & _)]]]]]];
      discriminate H.
  - pose proof (printError_detail "Failed" NullPrototype) as [C _].
    destruct (printError_value "Failed" NullPrototype) as [report | thrown] eqn:E;
      [discriminate E |].
    destruct C as [_ C]. injection C as <-. reflexivity.
Defined.

(* ===================================================================== *)
(** * [splitRepo] *)
(* ===================================================================== *)

Section SplitRepo.

Lemma split_not_empty (sep : ascii) (s : string) : split sep s <> [].
Proof.
  induction s as [|c s IH]; simpl; [discriminate |].
  destruct (Ascii.eqb c sep); [discriminate |].
  destruct (split sep s); [now destruct IH | discriminate].
Qed.

(** A string without the separator is one part. *)
Lemma split_slash_free (s : string) : slash_free s = true -> split "/" s = [s].
Proof.
  induction s as [|c s IH]; simpl; [reflexivity |].
  intros H. apply andb_true_iff in H as [Hc Hs].
  apply negb_true_iff in Hc. rewrite Hc, IH by exact Hs. reflexivity.
Qed.

(** The first separator ends the first part. *)
Lemma split_at_slash (a b : string) :
  slash_free a = true ->
  split "/" (a +:+ String.String "/" b) = a :: split "/" b.
Proof.
  induction a as [|c a IH]; simpl; intros H; [reflexivity |].
  apply andb_true_iff in H as [Hc Ha].
  apply negb_true_iff in Hc. rewrite Hc, IH by exact Ha. reflexivity.
Qed.

(** The parts have no separator in them, and joined again they are the
    string. *)
Lemma split_parts (s : string) :
  Forall (fun part => slash_free part = true) (split "/" s)
  /\ Js.join "/" (split "/" s) = s.
Proof.
  induction s as [|c s [F J]]; simpl; [split; [repeat constructor | reflexivity] |].
  destruct (split "/" s) as [|first others] eqn:E; [now apply split_not_empty in E |].
  destruct (Ascii.eqb_spec c "/") as [-> | Ne].
  - split; [constructor; [reflexivity | exact F] |].
    change (Js.join "/" (EmptyString :: first :: others))
      with (EmptyString +:+ "/" +:+ Js.join "/" (first :: others)).
    now rewrite J.
  - apply Forall_cons in F as [Hf Ho].
    split.
    + constructor; [| exact Ho]. simpl. rewrite Hf.
      apply Ascii.eqb_neq in Ne. now rewrite Ne.
    + destruct others as [|second others].
      * simpl in *. now rewrite J.
      * change (Js.join "/" (String.String c first :: second :: others))
          with (String.String c (first +:+ "/" +:+ Js.join "/" (second :: others))).
        change (Js.join "/" (first :: second :: others))
          with (first +:+ "/" +:+ Js.join "/" (second :: others)) in J.
        now rewrite J.
Qed.

End SplitRepo.

(** X12. [splitRepo] gives back the owner and the repository that were put
    together with a slash, when neither is empty nor has a slash in it; and
    it gives the same answer when more follows after another slash: whatever
    comes after the second slash is ignored. *)
Theorem splitRepo_of_owner_and_repo (owner repo more : string) :
  slash_free owner = true -> slash_free repo = true ->
  Js.truthy owner = true -> Js.truthy repo = true ->
  splitRepo (owner +:+ "/" +:+ repo) = GoesOn (owner, repo)
  /\ splitRepo (owner +:+ "/" +:+ repo +:+ "/" +:+ more) = GoesOn (owner, repo).
Proof.
  intros So Sr To Tr. unfold splitRepo.
  change (owner +:+ "/" +:+ repo) with (owner +:+ String.String "/" repo).
  change (owner +:+ "/" +:+ repo +:+ "/" +:+ more)
    with (owner +:+ String.String "/" (repo +:+ String.String "/" more)).
  rewrite !split_at_slash, split_slash_free by assumption.
  simpl. rewrite To, Tr. split; reflexivity.
Qed.

Lemma splitRepo_of_owner_and_repo_witness :
  splitRepo "torvalds/linux" = GoesOn ("torvalds", "linux")
  /\ splitRepo "torvalds/linux/issues/1" = GoesOn ("torvalds", "linux").
Proof.
  exact (splitRepo_of_owner_and_repo "torvalds" "linux" "issues/1"
           eq_refl eq_refl eq_refl eq_refl).
Defined.

(** X13. What [splitRepo] accepts. When it goes on, the owner and the
    repository are not empty, have no slash in them, and the argument is
    the two joined by a slash, possibly followed by a slash and more. *)
Theorem splitRepo_accepts (ownerRepo owner repo : string) :
  splitRepo ownerRepo = GoesOn (owner, repo) ->
  Js.truthy owner = true /\ Js.truthy repo = true
  /\ slash_free owner = true /\ slash_free repo = true
  /\ (ownerRepo = owner +:+ "/" +:+ repo
      \/ exists more, ownerRepo = owner +:+ "/" +:+ repo +:+ "/" +:+ more).
Proof.
  unfold splitRepo. destruct (split_parts ownerRepo) as [F J].
  destruct (split "/" ownerRepo) as [|o [|r others]] eqn:E; simpl.
  - discriminate.
  - rewrite orb_true_r. discriminate.
  - destruct (Js.truthy o) eqn:To, (Js.truthy r) eqn:Tr; simpl; try discriminate.
    intros [= <- <-].
    apply Forall_cons in F as [Fo F']. apply Forall_cons in F' as [Fr _].
    repeat (split; [assumption |]).
    cbn [Js.join] in J. destruct others as [|x others]; [left; now rewrite <- J |].
    right. exists (Js.join "/" (x :: others)). now rewrite <- J.
Qed.

Lemma splitRepo_accepts_witness :
  Js.truthy "a" = true /\ slash_free "b" = true
  /\ splitRepo "a" = ProcessExit
       (printError ("Invalid format. Use owner/repo (e.g. " +:+ dquote +:+
                    "torvalds/linux" +:+ dquote +:+ ")") (Primitive Js.Undefined)) 1.
Proof.
  pose proof (splitRepo_accepts "a/b/c" "a" "b" eq_refl) as (A & _ & _ & B & _).
  split; [exact A | split; [exact B | reflexivity]].
Defined.

(* ===================================================================== *)
(** * The client and the token *)
(* ===================================================================== *)

(** X14. [getClient] builds the client once: a second call returns the same
    client and changes nothing, and a token stored in the meantime is not
    seen, the client still carries the token it was built with, until
    [resetClient]; the next client then carries the new token. *)
Theorem getClient_keeps_its_client (s : ClientState) (token : string) :
  let client := fst (getClient s) in
  let s1 := snd (getClient s) in
  getClient s1 = (client, s1)
  /\ fst (getClient (setToken token s1)) = client
  /\ auth (fst (getClient (resetClient (setToken token s1)))) = Some token.
Proof.
  destruct s as [stored [client|]]; repeat split.
Qed.

(** X15. [auth login] asks the API with a client built from the new token,
    whatever client and token were there before. When the API answers, the
    new token stays stored, the client carrying it is kept, and
    [requireAuth] lets commands through if the token is not empty. When the
    API fails, no token is left, also if a valid one was stored before, no
    client is kept, the failure is reported with its detail, the exit code
    is 1, and [requireAuth] stops the next command. *)
Theorem auth_login_outcome (getAuthenticated : Octokit -> result string)
    (token : string) (s : ClientState) :
  let client := {| auth := Some token; userAgent := "ghf/1.0.0" |} in
  let after_login := snd (auth_login getAuthenticated token s) in
  match getAuthenticated client with
  | Returned login =>
      fst (auth_login getAuthenticated token s) = LoggedIn login
      /\ after_login = {| stored_token := Some token; _client := Some client |}
      /\ isAuthenticated after_login = Js.truthy token
      /\ (if Js.truthy token then requireAuth after_login = None
          else exists text, requireAuth after_login = Some (text, 1))
  | Thrown err =>
      fst (auth_login getAuthenticated token s)
      = LoginFailed (printError "Invalid token or insufficient scopes." err) 1
      /\ after_login = {| stored_token := None; _client := None |}
      /\ exists text, requireAuth after_login = Some (text, 1)
  end.
Proof.
  intros client after_login. subst after_login.
  unfold auth_login. simpl. fold client.
  destruct (getAuthenticated client) as [login | err]; simpl.
  - repeat split. unfold requireAuth, isAuthenticated. simpl.
    destruct (Js.truthy token); simpl; eauto.
  - repeat split. eexists. reflexivity.
Qed.

(** X16. After [auth logout] nobody is authenticated: when a token was
    stored it is removed together with the client, so the next client is
    built without a token; when none was stored nothing changes and the
    command only says so. *)
Theorem auth_logout_outcome (s : ClientState) :
  isAuthenticated (snd (auth_logout s)) = false
  /\ (if isAuthenticated s
      then snd (auth_logout s) = {| stored_token := None; _client := None |}
           /\ auth (fst (getClient (snd (auth_logout s)))) = None
      else auth_logout s = ("Not logged in.", s)).
Proof.
  unfold auth_logout, isAuthenticated.
  destruct (given (getToken s)) eqn:G; simpl; [repeat split | split; [exact G | reflexivity]].
Qed.

(* ===================================================================== *)
(** * More about the pagination loop *)
(* ===================================================================== *)

Section MorePaginateFacts.
Context {W V Item : Type} `{!Conf W V}.
Variable L : Listing W V Item.
Variable allPages : bool.
Variable perPage : Js.number.

Local Abbreviation Proc := (Proc W V Item).
Local Abbreviation trace := (list (event V Item)).
Implicit Types (p : Proc) (page : Js.number) (v : V) (evs : trace) (o : outcome).

(** One pass, when the page is in the cache. *)
Lemma iteration_hit page p v w :
  cacheGet (key_for L page) (world p) = (Returned (Some v), w) ->
  iteration L allPages perPage page p =
    (Returned (verdict_of L allPages page v),
     after p w (heading L page v ++ rows_of L perPage page v)).
Proof.
  intros E. unfold iteration, load, bind, lift, ret. rewrite E.
  now rewrite show_after.
Qed.

(** One pass, when the page is not in the cache and the API returns it. *)
Lemma iteration_fetched page p v w1 w2 w3 :
  cacheGet (key_for L page) (world p) = (Returned None, w1) ->
  request L page w1 = (Returned v, w2) ->
  cacheSet (key_for L page) v w2 = (Returned tt, w3) ->
  iteration L allPages perPage page p =
    (Returned (verdict_of L allPages page v),
     after p w3 (SpinnerStart (spinner_text L page) :: Fetch page (Returned v)
                 :: SpinnerStop :: heading L page v ++ rows_of L perPage page v)).
Proof.
  intros E R S.
  unfold iteration, load, bind, lift, try_catch, call_api, emit, ret.
  rewrite E. simpl. rewrite R. simpl. rewrite S. rewrite show_after.
  unfold after. simpl. now rewrite <- !app_assoc.
Qed.

(** The loop returns and only adds to the output. *)
Lemma paginate_returns answers : forall page p,
  exists o w evs, paginate L allPages perPage answers page p = (Returned o, after p w evs).
Proof.
  induction answers as [|answer later IH]; intros page p; rewrite paginate_step;
    destruct (iteration_cases L allPages perPage page p)
      as [(err & w & ->) | [(v & w & ->) | (v & w & ->)]];
    try (destruct (verdict_of L allPages page v)); cbn zeta;
    rewrite ?after_after; eauto;
    (destruct answer; [| rewrite ?after_after; eauto]);
    match goal with
    | |- context [paginate _ _ _ later ?pg ?q] =>
        destruct (IH pg q) as (o & w' & evs & ->)
    end; rewrite !after_after; eauto.
Qed.

End MorePaginateFacts.

Section Counting.
Context {W V Item : Type} `{!Conf W V}.
Variable L : Listing W V Item.
Variable allPages : bool.
Variable perPage : Js.number.
Hypothesis quiet : heading_quiet L.

Local Abbreviation Proc := (Proc W V Item).
Local Abbreviation trace := (list (event V Item)).
Implicit Types (p : Proc) (page : Js.number) (v : V) (evs : trace) (o : outcome).

Lemma fetches_app evs evs' : fetches (evs ++ evs') = (fetches evs + fetches evs')%nat.
Proof. unfold fetches. now rewrite List.filter_app, length_app. Qed.

Lemma prompts_app evs evs' : prompts (evs ++ evs') = (prompts evs + prompts evs')%nat.
Proof. unfold prompts. now rewrite List.filter_app, length_app. Qed.

Lemma quiet_counts evs :
  forallb (fun e => negb (is_fetch e) && negb (is_prompt e)) evs = true ->
  fetches evs = 0%nat /\ prompts evs = 0%nat.
Proof.
  induction evs as [|e evs IH]; simpl; [auto |].
  intros H. apply andb_true_iff in H as [He Hs]. destruct (IH Hs) as [F P].
  unfold fetches, prompts in *. simpl.
  destruct e; simpl in *; try discriminate; auto.
Qed.

Lemma page_counts page v :
  fetches (heading L page v ++ rows_of L perPage page v) = 0%nat
  /\ prompts (heading L page v ++ rows_of L perPage page v) = 0%nat.
Proof.
  rewrite fetches_app, prompts_app.
  destruct (quiet_counts _ (quiet page v)) as [-> ->].
  destruct (quiet_counts _ (rows_quiet L perPage page v)) as [-> ->]. auto.
Qed.

Lemma verdict_without_allPages page v :
  allPages = false -> verdict_of L allPages page v <> Continue.
Proof.
  intros ->. unfold verdict_of. destruct (items_of L v); [discriminate |].
  now rewrite orb_true_r.
Qed.

(** One pass makes at most one call and does not prompt. *)
Lemma iteration_counted page p :
  exists c w evs,
    iteration L allPages perPage page p = (Returned c, after p w evs)
    /\ (fetches evs <= 1)%nat /\ prompts evs = 0%nat
    /\ (allPages = false -> c <> Continue).
Proof.
  destruct (iteration_cases L allPages perPage page p)
    as [(err & w & ->) | [(v & w & ->) | (v & w & ->)]]; do 3 eexists;
    (split; [reflexivity |]).
  - repeat split; [unfold fetches; simpl; lia | discriminate].
  - destruct (page_counts page v) as [F P]. rewrite F, P.
    repeat split; [lia | apply verdict_without_allPages].
  - destruct (page_counts page v) as [F P].
    change (SpinnerStart (spinner_text L page) :: Fetch page (Returned v) :: SpinnerStop
            :: heading L page v ++ rows_of L perPage page v)
      with ([SpinnerStart (spinner_text L page); Fetch page (Returned v); SpinnerStop]
            ++ (heading L page v ++ rows_of L perPage page v)).
    rewrite fetches_app, prompts_app, F, P.
    repeat split; [unfold fetches; simpl; lia | apply verdict_without_allPages].
Qed.

Lemma paginate_counted answers : forall page p,
  exists o w evs,
    paginate L allPages perPage answers page p = (Returned o, after p w evs)
    /\ (fetches evs <= 1 + approvals answers)%nat
    /\ (prompts evs <= 1 + approvals answers)%nat
    /\ (allPages = false -> o = Done /\ prompts evs = 0%nat /\ (fetches evs <= 1)%nat).
Proof.
  induction answers as [|answer later IH]; intros page p; rewrite paginate_step;
    destruct (iteration_counted page p) as (c & w & evs & -> & F & P & A).
  - destruct c; cbn zeta; rewrite ?after_after; do 3 eexists;
      (split; [reflexivity |]); rewrite ?fetches_app, ?prompts_app;
      unfold approvals, fetches, prompts in *; simpl;
      (split; [lia | split; [lia |]]); intros H;
      try (now destruct (A H)); repeat split; lia.
  - destruct c; cbn zeta.
    1,2: do 3 eexists; (split; [reflexivity |]);
         unfold approvals, fetches, prompts in *; simpl;
         (split; [lia | split; [lia |]]); intros H; repeat split; lia.
    destruct answer.
    + destruct (IH (Js.incr page)
                  (after (after p w evs) (world (after p w evs)) [AskLoadMore]))
        as (o & w' & evs' & -> & F' & P' & _).
      rewrite !after_after. do 3 eexists. split; [reflexivity |].
      rewrite !fetches_app, !prompts_app.
      unfold approvals, fetches, prompts in *. simpl.
      split; [lia | split; [lia |]]. intros H. now destruct (A H).
    + rewrite after_after. do 3 eexists. split; [reflexivity |].
      rewrite !fetches_app, !prompts_app.
      unfold approvals, fetches, prompts in *. simpl.
      split; [lia | split; [lia |]]. intros H. now destruct (A H).
Qed.

End Counting.

Section MoreCommandFacts.

Lemma pr_list_quiet {W PR : Type} `{!Conf W (list PR), !PullsApi W PR}
    owner repo state base limit :
  heading_quiet (pr_list (W:=W) (PR:=PR) owner repo state base limit).
Proof. intros page v. reflexivity. Qed.

Lemma issue_list_quiet {W Issue : Type} `{!Conf W (list Issue), !IssuesApi W Issue}
    pull_request owner repo state label assignee limit :
  heading_quiet
    (issue_list (W:=W) (Issue:=Issue) pull_request owner repo state label assignee limit).
Proof. intros page v. reflexivity. Qed.

End MoreCommandFacts.

(** X17. No exception leaves the loop of a paginated command, whatever the
    cache store and the API do: for every listing, every run returns, and
    what had been printed before is still there, with the run's own output
    after it. *)
Theorem no_exception_leaves_the_loop
    {W V Item : Type} `{!Conf W V} (L : Listing W V Item)
    (allPages : bool) (perPage : Js.number) (answers : list bool) (page : Js.number)
    (p : Proc W V Item) :
  exists o w evs,
    paginate L allPages perPage answers page p
    = (Returned o, {| world := w; out := out p ++ evs |}).
Proof. apply paginate_returns. Qed.

(** X18. Without [--all-pages] a paginated command makes one pass: it never
    prompts, calls the API at most once, and is over, whatever answers
    would be available. *)
Theorem without_all_pages_one_pass
    {W V Item : Type} `{!Conf W V} (L : Listing W V Item)
    (perPage : Js.number) (answers : list bool) (page : Js.number) (p : Proc W V Item) :
  heading_quiet L ->
  exists w evs,
    paginate L false perPage answers page p
    = (Returned Done, {| world := w; out := out p ++ evs |})
    /\ prompts evs = 0%nat /\ (fetches evs <= 1)%nat.
Proof.
  intros Q.
  destruct (paginate_counted L false perPage Q answers page p)
    as (o & w & evs & E & _ & _ & A).
  destruct (A eq_refl) as (-> & P & F). exists w, evs. auto.
Qed.

Lemma without_all_pages_one_pass_witness :
  exists w evs,
    repo_list_loop None "all" "updated" false (Js.Int 2) [true; true] (Js.Int 1)
      (fresh_session (fun _ => Returned [7%nat; 7%nat]))
    = (Returned Done, {| world := w; out := [] ++ evs |})
    /\ prompts evs = 0%nat /\ (fetches evs <= 1)%nat.
Proof.
  exact (without_all_pages_one_pass
           (repo_list (W := Session (list nat)) None "all" "updated" (Js.Int 2))
           (repo_perPage (Js.Int 2)) [true; true] (Js.Int 1)
           (fresh_session (fun _ => Returned [7%nat; 7%nat]))
           (fun page v => eq_refl)).
Defined.

(** X19. A paginated command calls the API at most once per pass and makes
    a further pass only after the operator said yes: in every run the number
    of API calls and the number of prompts are each at most one more than
    the number of yes answers. Nothing is fetched ahead and nothing is
    tried twice. *)
Theorem calls_bounded_by_approvals
    {W V Item : Type} `{!Conf W V} (L : Listing W V Item)
    (allPages : bool) (perPage : Js.number) (answers : list bool) (page : Js.number)
    (p : Proc W V Item) :
  heading_quiet L ->
  exists o w evs,
    paginate L allPages perPage answers page p
    = (Returned o, {| world := w; out := out p ++ evs |})
    /\ (fetches evs <= 1 + approvals answers)%nat
    /\ (prompts evs <= 1 + approvals answers)%nat.
Proof.
  intros Q.
  destruct (paginate_counted L allPages perPage Q answers page p)
    as (o & w & evs & E & F & P & _).
  exists o, w, evs. auto.
Qed.

Lemma calls_bounded_by_approvals_witness :
  exists o w evs,
    repo_list_loop (Some "octo") "all" "updated" true (Js.Int 2) [true; false; true]
      (Js.Int 1) (fresh_session (fun _ => Returned [7%nat; 7%nat]))
    = (Returned o, {| world := w; out := [] ++ evs |})
    /\ (fetches evs <= 1 + approvals [true; false; true])%nat
    /\ (prompts evs <= 1 + approvals [true; false; true])%nat.
Proof.
  exact (calls_bounded_by_approvals
           (repo_list (W := Session (list nat)) (Some "octo") "all" "updated" (Js.Int 2))
           true (repo_perPage (Js.Int 2)) [true; false; true] (Js.Int 1)
           (fresh_session (fun _ => Returned [7%nat; 7%nat]))
           (fun page v => eq_refl)).
Defined.

Section SessionFacts.
Context {V : Type}.
Implicit Types (s : Session V) (key : string) (v : V).

Lemma cacheGet_session key s :
  cacheGet key s =
    (fst (cacheGet key (disk s)),
     {| disk := snd (cacheGet key (disk s)); remote := remote s |}).
Proof.
  unfold cacheGet, try_catch, bind, ret. simpl. unfold on_disk. simpl.
  destruct (entries (disk s) !! key) as [entry|]; simpl; [| reflexivity].
  destruct (clock (disk s) - ts entry >? TTL_MS); simpl; [| reflexivity].
  unfold mock_write. destruct (writable (disk s)); reflexivity.
Qed.

Lemma cacheSet_session key v s :
  cacheSet key v s =
    (fst (cacheSet key v (disk s)),
     {| disk := snd (cacheSet key v (disk s)); remote := remote s |}).
Proof.
  unfold cacheSet, try_catch, bind, ret. simpl. unfold on_disk. simpl.
  unfold mock_write. destruct (writable (disk s)); reflexivity.
Qed.

End SessionFacts.

(** X20. A page that is in the cache is shown without calling the API and
    without a spinner, whatever the store is: the output of [repo list] for
    it is the message for an empty page, or the table and the status line,
    followed by the prompt when the page is full and [--all-pages] is set. *)
Theorem cached_page_needs_no_call
    {W Repo : Type} `{!Conf W (list Repo), !ReposApi W Repo}
    (username : option string) (type sort : string) (allPages : bool)
    (limit page : Js.number) (p : Proc W (list Repo) Repo)
    (repos : list Repo) (w : W) :
  cacheGet (key_for (repo_list username type sort limit) page) (world p)
  = (Returned (Some repos), w) ->
  let full := Js.strict_eq (Js.length repos) (repo_perPage limit) in
  repo_list_loop username type sort allPages limit [] page p
  = match repos with
    | [] => (Returned Done,
             {| world := w; out := out p ++ [Log "  No repos found."] |})
    | _ :: _ =>
        if full && allPages then
          (Returned Suspended,
           {| world := w;
              out := out p ++ [PrintTable repos;
                               PrintPageInfo page (Js.length repos) (repo_perPage limit);
                               AskLoadMore] |})
        else
          (Returned Done,
           {| world := w;
              out := out p ++ [PrintTable repos;
                               PrintPageInfo page (Js.length repos) (repo_perPage limit)] |})
    end.
Proof.
  intros E full. unfold repo_list_loop. rewrite paginate_step.
  rewrite (iteration_hit _ _ _ _ _ _ _ E).
  unfold verdict_of, rows_of, after. cbn [items_of hasMore_of heading repo_list].
  destruct repos as [|r repos]; [reflexivity |].
  fold full. destruct full, allPages; simpl; rewrite <- ?app_assoc; reflexivity.
Qed.

Lemma cached_page_needs_no_call_witness :
  let s : Session (list nat) :=
    {| disk := {| clock := 10;
                  entries := {[ "repo.list::__me__::all::updated::1::30" :=
                                  {| data := [7%nat]; ts := 0 |} ]};
                  writable := false |};
       remote := fun _ => Thrown EACCES |} in
  repo_list_loop None "all" "updated" true (Js.Int 30) [] (Js.Int 1) (started s)
  = (Returned Done,
     {| world := s;
        out := [PrintTable [7%nat]; PrintPageInfo (Js.Int 1) (Js.Int 1) (Js.Int 30)] |}).
Proof.
  intros s.
  assert (E : cacheGet (key_for (repo_list (W := Session (list nat)) (Repo := nat)
                                   None "all" "updated" (Js.Int 30)) (Js.Int 1))
                (world (started (V := list nat) (Item := nat) s))
              = (Returned (Some [7%nat]), s))
    by (vm_compute; reflexivity).
  exact (cached_page_needs_no_call None "all" "updated" true (Js.Int 30) (Js.Int 1)
           (started s) [7%nat] s E).
Defined.

(** X21. The cache does its work from one run of [repo list] to the next.
    On a session whose store has no entry for the page, the first run calls
    the API and stores the page. A second run no more than [TTL_MS] later
    prints the same page and ends the same way without calling the API. A
    run more than [TTL_MS] later calls the API again and prints what the
    first run printed. *)
Theorem repo_list_page_is_memoised {Repo : Type}
    (username : option string) (type sort : string) (allPages : bool)
    (limit page : Js.number) (s : Session (list Repo)) (repos : list Repo)
    (elapsed late : Z) :
  writable (disk s) = true ->
  entries (disk s)
    !! key_for (repo_list (W := Session (list Repo)) username type sort limit) page
  = None ->
  remote s page = Returned repos ->
  elapsed <= TTL_MS -> late > TTL_MS ->
  let run w := repo_list_loop username type sort allPages limit [] page (started w) in
  let first := run s in
  let again := run (session_advance elapsed (world (snd first))) in
  let later := run (session_advance late (world (snd first))) in
  out (snd first)
  = SpinnerStart ("Fetching page " +:+ Js.number_to_string page +:+ "…")
    :: Fetch page (Returned repos) :: SpinnerStop :: out (snd again)
  /\ fetches (out (snd again)) = 0%nat
  /\ fst again = fst first
  /\ out (snd later) = out (snd first).
Proof.
  intros Hw Hm Hr He Hl run first again later.
  set (L := repo_list (W := Session (list Repo)) username type sort limit) in *.
  set (key := key_for L page) in *.
  set (stored := {| clock := clock (disk s);
                    entries := <[key := {| data := repos; ts := clock (disk s) |}]>
                                 (entries (disk s));
                    writable := true |}).
  assert (Req : forall t : Session (list Repo),
             remote t = remote s -> request L page t = (Returned repos, t)).
  { intros t Et. unfold L. cbn [request repo_list]. simpl.
    destruct (given username); unfold ask_remote; now rewrite Et, Hr. }
  assert (Miss : cacheGet key s = (Returned None, s)).
  { rewrite cacheGet_session, cacheGet_mock_absent by exact Hm. now destruct s. }
  assert (Set_ : forall d, writable d = true ->
             cacheSet key repos {| disk := d; remote := remote s |}
             = (Returned tt,
                {| disk := {| clock := clock d;
                              entries := <[key := {| data := repos; ts := clock d |}]>
                                           (entries d);
                              writable := true |};
                   remote := remote s |})).
  { intros d Hd. rewrite cacheSet_session. simpl. now rewrite (cacheSet_mock _ _ _ Hd). }
  assert (First : first
            = match verdict_of L allPages page repos with
              | Continue =>
                  (Returned Suspended,
                   {| world := {| disk := stored; remote := remote s |};
                      out := (SpinnerStart (spinner_text L page)
                              :: Fetch page (Returned repos) :: SpinnerStop
                              :: heading L page repos
                                 ++ rows_of L (repo_perPage limit) page repos)
                             ++ [AskLoadMore] |})
              | _ =>
                  (Returned Done,
                   {| world := {| disk := stored; remote := remote s |};
                      out := SpinnerStart (spinner_text L page)
                             :: Fetch page (Returned repos) :: SpinnerStop
                             :: heading L page repos
                                ++ rows_of L (repo_perPage limit) page repos |})
              end).
  { unfold first, run, repo_list_loop. fold L. rewrite paginate_step.
    rewrite (iteration_fetched L allPages (repo_perPage limit) page (started s)
               repos s s {| disk := stored; remote := remote s |});
      [| exact Miss | now apply Req
       | destruct s as [d r]; simpl in *; unfold stored; simpl; now rewrite Set_].
    destruct (verdict_of L allPages page repos); reflexivity. }
  assert (World : world (snd first) = {| disk := stored; remote := remote s |}).
  { rewrite First. destruct (verdict_of L allPages page repos); reflexivity. }
  assert (Again : again
            = match verdict_of L allPages page repos with
              | Continue =>
                  (Returned Suspended,
                   {| world := session_advance elapsed
                                 {| disk := stored; remote := remote s |};
                      out := (heading L page repos
                              ++ rows_of L (repo_perPage limit) page repos)
                             ++ [AskLoadMore] |})
              | _ =>
                  (Returned Done,
                   {| world := session_advance elapsed
                                 {| disk := stored; remote := remote s |};
                      out := heading L page repos
                             ++ rows_of L (repo_perPage limit) page repos |})
              end).
  { unfold again, run, repo_list_loop. fold L. rewrite World, paginate_step.
    rewrite (iteration_hit L allPages (repo_perPage limit) page _ repos
               (session_advance elapsed {| disk := stored; remote := remote s |})).
    - destruct (verdict_of L allPages page repos); reflexivity.
    - rewrite cacheGet_session. simpl.
      rewrite (cacheGet_mock_fresh key _ {| data := repos; ts := clock (disk s) |});
        [reflexivity | apply lookup_insert_eq | simpl; lia]. }
  assert (Later : out (snd later) = out (snd first)).
  { unfold later, run, repo_list_loop. fold L. rewrite World, paginate_step.
    set (expired := {| clock := clock (disk s) + late;
                       entries := delete key (entries stored);
                       writable := true |}).
    rewrite (iteration_fetched L allPages (repo_perPage limit) page _ repos
               {| disk := expired; remote := remote s |}
               {| disk := expired; remote := remote s |}
               {| disk := {| clock := clock expired;
                             entries := <[key := {| data := repos; ts := clock expired |}]>
                                          (entries expired);
                             writable := true |};
                  remote := remote s |}).
    - rewrite First. destruct (verdict_of L allPages page repos); reflexivity.
    - rewrite cacheGet_session. simpl.
      rewrite (cacheGet_mock_expired key _ {| data := repos; ts := clock (disk s) |});
        [reflexivity | reflexivity | apply lookup_insert_eq | simpl; lia].
    - now apply Req.
    - now apply Set_. }
  rewrite First, Again.
  assert (Q : fetches (heading L page repos ++ rows_of L (repo_perPage limit) page repos)
              = 0%nat).
  { apply page_counts. intros pg v. reflexivity. }
  split; [| split; [| split]].
  - destruct (verdict_of L allPages page repos); reflexivity.
  - destruct (verdict_of L allPages page repos); cbn [snd out];
      [exact Q | exact Q | rewrite fetches_app, Q; reflexivity].
  - destruct (verdict_of L allPages page repos); reflexivity.
  - rewrite <- First. exact Later.
Qed.

Lemma repo_list_page_is_memoised_witness :
  let s : Session (list nat) :=
    {| disk := {| clock := 0; entries := ∅; writable := true |};
       remote := fun _ => Returned [7%nat; 7%nat] |} in
  let run w :=
    repo_list_loop None "all" "updated" false (Js.Int 30) [] (Js.Int 1) (started w) in
  fetches (out (snd (run s))) = 1%nat
  /\ fetches (out (snd (run (session_advance TTL_MS (world (snd (run s))))))) = 0%nat
  /\ out (snd (run (session_advance (TTL_MS + 1) (world (snd (run s))))))
     = out (snd (run s)).
Proof.
  intros s run.
  assert (M : entries (disk s)
              !! key_for (repo_list (W := Session (list nat)) None "all" "updated"
                            (Js.Int 30)) (Js.Int 1) = None) by reflexivity.
  pose proof (repo_list_page_is_memoised None "all" "updated" false (Js.Int 30)
                (Js.Int 1) s [7%nat; 7%nat] TTL_MS (TTL_MS + 1)
                eq_refl M eq_refl) as H.
  destruct (H ltac:(discriminate) eq_refl) as (_ & A & _ & L).
  split; [vm_compute; reflexivity | split; [exact A | exact L]].
Defined.

(* ===================================================================== *)
(** * The status line *)
(* ===================================================================== *)

Section Tally.
Context {W V Item : Type} `{!Conf W V}.
Variable L : Listing W V Item.
Variable allPages : bool.
Variable n : Z.
Hypothesis titles : forall page v, forallb is_title (heading L page v) = true.
Hypothesis full : forall page v,
  hasMore_of L page v = true -> Js.strict_eq (Js.length (items_of L v)) (Js.Int n) = true.

Local Abbreviation Proc := (Proc W V Item).
Local Abbreviation trace := (list (event V Item)).
Implicit Types (p : Proc) (v : V) (evs : trace) (o : outcome).

Lemma tallied_titles shown (hs evs : trace) :
  forallb is_title hs = true -> tallied shown (hs ++ evs) <-> tallied shown evs.
Proof.
  induction hs as [|e hs IH]; simpl; [tauto |].
  intros H. apply andb_true_iff in H as [He Hs].
  destruct e; simpl in He; try discriminate. now apply IH.
Qed.

(** One pass keeps the tally, and hands it on to the next page when the
    loop goes on. *)
Lemma iteration_tallied (P : Z) p :
  exists c w evs,
    iteration L allPages (Js.Int n) (Js.Int P) p = (Returned c, after p w evs)
    /\ forall tail,
         match c with
         | Continue => tallied (P * n) tail
         | _ => tail = []
         end ->
         tallied ((P - 1) * n) (evs ++ tail).
Proof.
  assert (Page : forall v tail,
             match verdict_of L allPages (Js.Int P) v with
             | Continue => tallied (P * n) tail
             | _ => tail = []
             end ->
             tallied ((P - 1) * n)
               ((heading L (Js.Int P) v ++ rows_of L (Js.Int n) (Js.Int P) v) ++ tail)).
  { intros v tail T. rewrite <- app_assoc. apply tallied_titles; [apply titles |].
    unfold verdict_of, rows_of in *. destruct (items_of L v) as [|i is_] eqn:I.
    - subst tail. simpl. exact Logic.I.
    - cbn [app tallied].
      split; [unfold showing, Js.length, number_sub, Js.mul, number_add; f_equal; lia |].
      destruct (hasMore_of L (Js.Int P) v) eqn:H; simpl in T.
      + destruct allPages; simpl in T; [| subst tail; exact Logic.I].
        apply full in H. rewrite I in H. unfold Js.length, Js.strict_eq in H.
        apply Z.eqb_eq in H.
        replace ((P - 1) * n + Z.of_nat (List.length (i :: is_))) with (P * n) by lia.
        exact T.
      + subst tail. exact Logic.I. }
  destruct (iteration_cases L allPages (Js.Int n) (Js.Int P) p)
    as [(err & w & ->) | [(v & w & ->) | (v & w & ->)]]; do 3 eexists;
    (split; [reflexivity |]); intros tail T.
  - cbn in T. subst tail. simpl. exact Logic.I.
  - now apply Page.
  - change (SpinnerStart (spinner_text L (Js.Int P)) :: Fetch (Js.Int P) (Returned v)
            :: SpinnerStop
            :: heading L (Js.Int P) v ++ rows_of L (Js.Int n) (Js.Int P) v)
      with ([SpinnerStart (spinner_text L (Js.Int P)); Fetch (Js.Int P) (Returned v);
             SpinnerStop]
            ++ (heading L (Js.Int P) v ++ rows_of L (Js.Int n) (Js.Int P) v)).
    rewrite <- app_assoc. simpl. now apply Page.
Qed.

Lemma paginate_tallied answers : forall (P : Z) p,
  exists o w evs,
    paginate L allPages (Js.Int n) answers (Js.Int P) p = (Returned o, after p w evs)
    /\ tallied ((P - 1) * n) evs.
Proof.
  induction answers as [|answer later IH]; intros P p; rewrite paginate_step;
    destruct (iteration_tallied P p) as (c & w & evs & -> & K).
  - destruct c; cbn zeta; rewrite ?after_after; do 3 eexists;
      (split; [reflexivity |]).
    1,2: rewrite <- (app_nil_r evs); now apply K.
    apply K. simpl. exact Logic.I.
  - destruct c; cbn zeta.
    1,2: do 3 eexists; (split; [reflexivity |]);
         rewrite <- (app_nil_r evs); now apply K.
    destruct answer.
    + change (Js.incr (Js.Int P)) with (Js.Int (P + 1)).
      destruct (IH (P + 1)
                  (after (after p w evs) (world (after p w evs)) [AskLoadMore]))
        as (o & w' & evs' & -> & T).
      rewrite !after_after. do 3 eexists. split; [reflexivity |].
      apply K. simpl. now replace (P * n) with ((P + 1 - 1) * n) by lia.
    + rewrite after_after. do 3 eexists. split; [reflexivity |].
      apply K. simpl. exact Logic.I.
Qed.

(** What [tallied] says at a given status line. *)
Lemma tallied_at evs : forall shown pre page count perPage post,
  tallied shown evs ->
  evs = pre ++ PrintPageInfo page count perPage :: post ->
  showing page count perPage = Js.Int (shown + rows_printed pre).
Proof.
  intros shown pre. revert shown evs.
  induction pre as [|e pre IH]; intros shown evs page count perPage post T ->;
    simpl in T.
  - simpl. rewrite Z.add_0_r. tauto.
  - destruct e; simpl; try (eapply IH; eauto; fail).
    + rewrite Z.add_assoc. eapply IH; eauto.
    + destruct T as [_ T]. eapply IH; eauto.
Qed.

End Tally.

(** X22. The figure in the status line of [repo list] is the number of rows
    shown. With a limit and a first page [P] of at least one, and while the
    figures stay safe integers (the pages a run can reach, times the largest
    page size, plus the largest length of an array), every status line of a
    run reads "showing [(P - 1) * perPage] plus the rows of all tables
    printed so far in the run"; started at page 1 that is the rows printed
    so far. It holds across pages because the loop only goes on after a
    full page. *)
Theorem status_line_counts_the_rows
    {W Repo : Type} `{!Conf W (list Repo), !ReposApi W Repo}
    (username : option string) (type sort : string) (allPages : bool)
    (limit first : Z) (answers : list bool) (p : Proc W (list Repo) Repo)
    (pre : list (event (list Repo) Repo)) (page count perPage : Js.number)
    (post : list (event (list Repo) Repo)) :
  1 <= limit -> 1 <= first ->
  (first + Z.of_nat (List.length answers)) * 100 + 2 ^ 32 <= Js.MAX_SAFE_INTEGER ->
  let run :=
    repo_list_loop username type sort allPages (Js.Int limit) answers (Js.Int first) p in
  out (snd run) = out p ++ pre ++ PrintPageInfo page count perPage :: post ->
  showing page count perPage
  = Js.Int ((first - 1) * Z.min limit 100 + rows_printed pre).
Proof.
  intros _ _ _ run E. subst run. unfold repo_list_loop in E.
  change (repo_perPage (Js.Int limit)) with (Js.Int (Z.min limit 100)) in E.
  destruct (paginate_tallied (repo_list username type sort (Js.Int limit)) allPages
              (Z.min limit 100) (fun _ _ => eq_refl) (fun _ _ H => H) answers first p)
    as (o & w & evs & R & T).
  rewrite R in E. simpl in E. apply app_inv_head in E.
  eapply tallied_at; eauto.
Qed.

Lemma status_line_counts_the_rows_witness :
  let remote page :=
    match page with
    | Js.Int 1 => Returned (List.repeat 7%nat 30)
    | _ => Returned (List.repeat 7%nat 5)
    end in
  showing (Js.Int 2) (Js.Int 5) (Js.Int 30) = Js.Int 35
  /\ printPageInfo (Js.Int 2) (Js.Int 5) (Js.Int 30)
     = newline +:+ "  Page 2 · showing 35 total · 5 on this page".
Proof.
  intros remote.
  assert (E : out (snd (repo_list_loop None "all" "updated" true (Js.Int 30)
                          [true; true] (Js.Int 1)
                          (fresh_session (V := list nat) (Item := nat) remote)))
              = out (fresh_session (V := list nat) (Item := nat) remote)
                ++ [SpinnerStart "Fetching page 1…";
                    Fetch (Js.Int 1) (Returned (List.repeat 7%nat 30));
                    SpinnerStop; PrintTable (List.repeat 7%nat 30);
                    PrintPageInfo (Js.Int 1) (Js.Int 30) (Js.Int 30); AskLoadMore;
                    SpinnerStart "Fetching page 2…";
                    Fetch (Js.Int 2) (Returned (List.repeat 7%nat 5));
                    SpinnerStop; PrintTable (List.repeat 7%nat 5)]
                ++ PrintPageInfo (Js.Int 2) (Js.Int 5) (Js.Int 30) :: [])
    by (vm_compute; reflexivity).
  split; [| reflexivity].
  exact (status_line_counts_the_rows (W := Session (list nat)) (Repo := nat)
           None "all" "updated" true 30 1 [true; true] (fresh_session remote)
           _ _ _ _ _ ltac:(lia) ltac:(lia) ltac:(vm_compute; discriminate) E).
Defined.

(* ===================================================================== *)
(** * [pr list] and [issue list] *)
(* ===================================================================== *)

Section IssueFacts.


End IssueFacts.

(** X23. In [pr list] and in [issue list], as in [repo list], a failed call
    of the API is reported and ends the command, at whatever page it
    happens. When the page is not in the cache and the call for it fails,
    the run adds the spinner, the call, the failed spinner and [printError]
    with the classifier's message, and is over: so at the page the run
    starts with, and so at any page reached after the operator said yes at
    the prompts (the page numbers being safe integers). And whenever a call
    fails, what follows it in the output is that report and nothing more. *)
Theorem fetch_failure_ends_pr_and_issue_list
    {W W' PR Issue : Type}
    `{!Conf W (list PR), !PullsApi W PR, !Conf W' (list Issue), !IssuesApi W' Issue}
    (pull_request : Issue -> bool)
    (owner repo state : string) (base label assignee : option string)
    (allPages : bool) (limit : Js.number) (answers : list bool) (page : Js.number)
    (p : Proc W (list PR) PR) (q : Proc W' (list Issue) Issue) :
  let pr := pr_list owner repo state base limit in
  let issue := issue_list pull_request owner repo state label assignee limit in
  let pulls more := pr_list_loop owner repo state base allPages limit more page p in
  let issues more :=
    issue_list_loop pull_request owner repo state label assignee allPages limit
      more page q in
  let reached := Nat.iter (S (List.length answers)) Js.incr page in
  ((forall w1 w2 err,
       Js.safe_for 0 page = true ->
       cacheGet (key_for pr page) (world p) = (Returned None, w1) ->
       request pr page w1 = (Thrown err, w2) ->
       pulls answers = (Returned Done, after p w2 (failure_report pr page err)))
   /\ (forall rest p' w1 w2 err,
         Js.safe_for (S (List.length answers)) page = true ->
         pulls answers = (Returned Suspended, p') ->
         cacheGet (key_for pr reached) (world p') = (Returned None, w1) ->
         request pr reached w1 = (Thrown err, w2) ->
         pulls (answers ++ true :: rest)
         = (Returned Done, after p' w2 (failure_report pr reached err)))
   /\ (forall pre pg err post,
         out (snd (pulls answers)) = out p ++ pre ++ Fetch pg (Thrown err) :: post ->
         post = [SpinnerFail "Failed"; PrintError (friendlyError err)]
         /\ fst (pulls answers) = Returned Done))
  /\ ((forall w1 w2 err,
          Js.safe_for 0 page = true ->
          cacheGet (key_for issue page) (world q) = (Returned None, w1) ->
          listForRepo owner repo state label assignee (issue_perPage limit) page w1
          = (Thrown err, w2) ->
          issues answers = (Returned Done, after q w2 (failure_report issue page err)))
      /\ (forall rest q' w1 w2 err,
            Js.safe_for (S (List.length answers)) page = true ->
            issues answers = (Returned Suspended, q') ->
            cacheGet (key_for issue reached) (world q') = (Returned None, w1) ->
            listForRepo owner repo state label assignee (issue_perPage limit) reached w1
            = (Thrown err, w2) ->
            issues (answers ++ true :: rest)
            = (Returned Done, after q' w2 (failure_report issue reached err)))
      /\ (forall pre pg err post,
            out (snd (issues answers)) = out q ++ pre ++ Fetch pg (Thrown err) :: post ->
            post = [SpinnerFail "Failed"; PrintError (friendlyError err)]
            /\ fst (issues answers) = Returned Done)).
Proof.
  intros pr issue pulls issues reached.
  assert (Req : forall pg w1 w2 err,
             listForRepo owner repo state label assignee (issue_perPage limit) pg w1
             = (Thrown err, w2) ->
             request issue pg w1 = (Thrown err, w2)).
  { intros pg w1 w2 err R. unfold issue. cbn [request issue_list].
    unfold issue_request, bind. now rewrite R. }
  split; (split; [| split]).
  - intros w1 w2 err _ E R. exact (paginate_failed _ _ _ _ _ _ _ _ _ E R).
  - intros rest p' w1 w2 err _ S E R.
    exact (paginate_failed_later _ _ _ _ _ _ _ _ _ _ _ S E R).
  - intros pre pg err post E.
    apply paginate_at in E as (o & R & -> & ->); [auto | apply pr_list_quiet].
  - intros w1 w2 err _ E R.
    exact (paginate_failed _ _ _ _ _ _ _ _ _ E (Req _ _ _ _ R)).
  - intros rest q' w1 w2 err _ S E R.
    exact (paginate_failed_later _ _ _ _ _ _ _ _ _ _ _ S E (Req _ _ _ _ R)).
  - intros pre pg err post E.
    apply paginate_at in E as (o & R & -> & ->); [auto | apply issue_list_quiet].
Qed.

Lemma fetch_failure_ends_pr_and_issue_list_witness :
  let forbidden :=
    Object true {| message := "Forbidden"; status := Some (Js.Int 403);
                   response := None |} in
  let remote page :=
    match page with
    | Js.Int 1 => Returned [false; false]
    | _ => Thrown forbidden
    end in
  let pulls :=
    pr_list_loop "acme" "widgets" "open" None true (Js.Int 30) [true] (Js.Int 1)
      (fresh_session (V := list nat) (Item := nat) (fun _ => Thrown forbidden)) in
  let issues :=
    issue_list_loop (fun i : bool => i) "acme" "widgets" "open" None None true
      (Js.Int 2) [true; true] (Js.Int 1) (fresh_session remote) in
  (fst pulls = Returned Done
   /\ out (snd pulls) =
        [SpinnerStart "Fetching page 1…"; Fetch (Js.Int 1) (Thrown forbidden);
         SpinnerFail "Failed";
         PrintError "Forbidden (403) — your token may be missing required scopes."])
  /\ (fst issues = Returned Done
      /\ out (snd issues) =
           [SpinnerStart "Fetching page 1…";
            Fetch (Js.Int 1) (Returned [false; false]);
            SpinnerStop; PrintTable [false; false];
            PrintPageInfo (Js.Int 1) (Js.Int 2) (Js.Int 2); AskLoadMore;
            SpinnerStart "Fetching page 2…"; Fetch (Js.Int 2) (Thrown forbidden);
            SpinnerFail "Failed";
            PrintError "Forbidden (403) — your token may be missing required scopes."]).
Proof.
  intros forbidden remote pulls issues.
  pose (p := fresh_session (V := list nat) (Item := nat) (fun _ => Thrown forbidden)).
  pose (q := fresh_session (V := list bool) (Item := bool) remote).
  pose (q' := snd (issue_list_loop (fun i : bool => i) "acme" "widgets" "open" None
                     None true (Js.Int 2) [] (Js.Int 1) q)).
  split.
  - destruct (fetch_failure_ends_pr_and_issue_list
                (W := Session (list nat)) (W' := Session (list bool))
                (fun i : bool => i) "acme" "widgets" "open" None None None true
                (Js.Int 30) [true] (Js.Int 1) p q)
      as [(First & _ & _) _].
    specialize (First (world p) (world p) forbidden).
    cbv zeta in First.
    assert (E : cacheGet
                  (key_for (pr_list (W := Session (list nat)) "acme" "widgets" "open"
                              None (Js.Int 30)) (Js.Int 1))
                  (world p)
                = (Returned None, world p))
      by (vm_compute; reflexivity).
    specialize (First eq_refl E eq_refl).
    unfold pulls. fold p. rewrite First. split; [reflexivity | vm_compute; reflexivity].
  - destruct (fetch_failure_ends_pr_and_issue_list
                (W := Session (list nat)) (W' := Session (list bool))
                (fun i : bool => i) "acme" "widgets" "open" None None None true
                (Js.Int 2) [] (Js.Int 1) p q)
      as [_ (_ & Later & _)].
    specialize (Later [true] q' (world q') (world q') forbidden).
    cbv zeta in Later.
    assert (S : issue_list_loop (fun i : bool => i) "acme" "widgets" "open" None None
                  true (Js.Int 2) [] (Js.Int 1) q = (Returned Suspended, q'))
      by (vm_compute; reflexivity).
    assert (E : cacheGet
                  (key_for (issue_list (W := Session (list bool)) (fun i : bool => i)
                              "acme" "widgets" "open" None None (Js.Int 2))
                     (Nat.iter 1 Js.incr (Js.Int 1)))
                  (world q')
                = (Returned None, world q'))
      by (vm_compute; reflexivity).
    specialize (Later eq_refl S E eq_refl).
    change ([] ++ [true; true]) with [true; true] in Later.
    unfold issues. fold q. rewrite Later. split; [reflexivity | vm_compute; reflexivity].
Defined.



(* ===================================================================== *)
(** * The keys of [repo list] and [pr list] *)
(* ===================================================================== *)

Lemma pr_state_colon_free (state : string) : colon_free (pr_state state) = true.
Proof.
  unfold pr_state. destruct (String.eqb state "all"); [reflexivity |].
  destruct (String.eqb state "closed"); reflexivity.
Qed.

(** X25. [repo list] keeps its pages under keys that tell its calls apart:
    when the type and sort options and the user names have no colon in them
    and no user is named ["__me__"] (the word the key uses for the
    authenticated user), two runs that reach the same key are at the same
    page and make the same call of the API with the same arguments. *)
Theorem repo_list_key_identifies_the_call
    {W Repo : Type} `{!Conf W (list Repo), !ReposApi W Repo}
    (username username' : option string) (type sort type' sort' : string)
    (limit limit' page page' : Js.number) :
  username <> Some "__me__" -> username' <> Some "__me__" ->
  forallb colon_free
    [default "__me__" username; type; sort; default "__me__" username'; type'; sort']
  = true ->
  key_for (repo_list username type sort limit) page
  = key_for (repo_list username' type' sort' limit') page' ->
  page = page'
  /\ request (repo_list username type sort limit) page
     = request (repo_list username' type' sort' limit') page'.
Proof.
  intros Me Me' F E.
  cbn [forallb] in F.
  repeat (apply andb_true_iff in F as [? F]).
  cbn [key_for repo_list] in E. unfold cacheKey in E.
  cbn [List.filter present List.map Js.String] in E.
  apply join_injective in E; try discriminate.
  - injection E as Eu Et Es Ep Eq.
    apply number_to_string_injective in Ep, Eq. subst.
    split; [reflexivity |].
    cbn [request repo_list]. rewrite Eq.
    destruct username as [u|], username' as [u'|]; cbv [default from_option id] in Eu;
      subst; try reflexivity; [now destruct Me | now destruct Me'].
  - repeat constructor; auto using number_colon_free.
  - repeat constructor; auto using number_colon_free.
Qed.

Lemma repo_list_key_identifies_the_call_witness :
  let remote := fun _ : Js.number => Returned [1%nat] in
  request (repo_list (W := Session (list nat)) (Some "octocat") "owner" "updated"
             (Js.Int 30)) (Js.Int 2) (world (fresh_session (Item := nat) remote))
  = request (repo_list (Some "octocat") "owner" "updated" (Js.Int 30))
      (Js.incr (Js.Int 1)) (world (fresh_session (Item := nat) remote)).
Proof.
  intros remote.
  exact (f_equal (fun r => r (world (fresh_session (Item := nat) remote)))
           (proj2 (repo_list_key_identifies_the_call
                     (W := Session (list nat)) (Repo := nat)
                     (Some "octocat") (Some "octocat") "owner" "updated" "owner" "updated"
                     (Js.Int 30) (Js.Int 30) (Js.Int 2) (Js.incr (Js.Int 1))
                     ltac:(discriminate) ltac:(discriminate) eq_refl eq_refl))).
Defined.

(** X26. [pr list] keeps its pages under keys that tell its calls apart:
    when the owner, the repository and the base branch (where one is given)
    have no colon in them, two runs that reach the same key are at the same
    page and make the same call of the API, with the same state filter and
    the same base branch or none in both. *)
Theorem pr_list_key_identifies_the_call
    {W PR : Type} `{!Conf W (list PR), !PullsApi W PR}
    (owner repo state owner' repo' state' : string) (base base' : option string)
    (limit limit' page page' : Js.number) :
  forallb colon_free
    [owner; repo; default EmptyString base; owner'; repo'; default EmptyString base']
  = true ->
  key_for (pr_list owner repo state base limit) page
  = key_for (pr_list owner' repo' state' base' limit') page' ->
  page = page' /\ base = base'
  /\ request (pr_list owner repo state base limit) page
     = request (pr_list owner' repo' state' base' limit') page'.
Proof.
  intros F E.
  cbn [forallb] in F.
  repeat (apply andb_true_iff in F as [? F]).
  cbn [key_for pr_list] in E. unfold cacheKey in E.
  pose proof (pr_state_colon_free state) as St.
  pose proof (pr_state_colon_free state') as St'.
  destruct base as [b|], base' as [b'|];
    cbn [optional List.filter present List.map Js.String default] in *;
    (apply join_injective in E;
     [| repeat constructor; auto using number_colon_free ..
      | discriminate | discriminate]);
    try discriminate E.
  - injection E as Eo Er Es Eb Ep Eq.
    apply number_to_string_injective in Ep, Eq. subst.
    cbn [request pr_list]. now rewrite Es, Eq.
  - injection E as Eo Er Es Ep Eq.
    apply number_to_string_injective in Ep, Eq. subst.
    cbn [request pr_list]. now rewrite Es, Eq.
Qed.

Lemma pr_list_key_identifies_the_call_witness :
  let remote := fun _ : Js.number => Returned [1%nat] in
  request (pr_list (W := Session (list nat)) "acme" "widgets" "merged" (Some "main")
             (Js.Int 100)) (Js.Int 2) (world (fresh_session (Item := nat) remote))
  = request (pr_list "acme" "widgets" "open" (Some "main") (Js.Int 250))
      (Js.Int 2) (world (fresh_session (Item := nat) remote)).
Proof.
  intros remote.
  exact (f_equal (fun r => r (world (fresh_session (Item := nat) remote)))
           (proj2 (proj2 (pr_list_key_identifies_the_call
                     (W := Session (list nat)) (PR := nat)
                     "acme" "widgets" "merged" "acme" "widgets" "open"
                     (Some "main") (Some "main")
                     (Js.Int 100) (Js.Int 250) (Js.Int 2) (Js.Int 2)
                     eq_refl eq_refl)))).
Defined.
